(** * The notation engine of [tardis/util.py]

    A shallow embedding of the roman-numeral codec, the element-symbol
    registry, the species parser and formatter and the quantity tokenizer of
    [tardis/util.py] (Python 2), with the properties its specification
    states about them.

    Python values are modelled as follows: [str] (a byte string) is
    [string]; [int] is [Z]; a dictionary is a [gmap]; a call that may raise
    is a [result], whose [Raise] carries the exception class and the message
    the source builds. *)

From Stdlib Require Import ZArith Ascii String List Bool Lia DecimalString DecimalZ.
From stdpp Require Import gmap strings.

Local Open Scope Z_scope.

(** ** Exceptions *)

(** The messages of the [ValueError]s the module (and the builtins it calls)
    can raise; the class is the same, the raise sites differ. *)
Inductive value_error : Type :=
  | ArgumentRange
      (** int_to_roman: "Argument must be between 1 and 3999" *)
  | NotRomanNumeral (roman_input : string)
      (** roman_to_int: "input is not a valid roman numeral: %s" *)
  | SpeciesDoesNotExist
      (** species_string_to_tuple:
          "Species given does not exist: ion number > atomic number" *)
  | InvalidLiteral (s : string)
      (** builtin int() / float(): "invalid literal ..." *)
  | NotInList
      (** list.index: "... is not in list" *)
  | Unpack (n : nat)
      (** tuple unpacking of [n] values into two names *).

(** The two messages of [MalformedSpeciesError]. *)
Inductive species_error : Type :=
  | NotOfFormat (species_string : string)
      (** 'Species string "{0}" is not of format <element_symbol><number>' *)
  | IonNumberNotParsed (ion_number_string : string)
      (** "Given ion number ('{}') could not be parsed " *).

Inductive exn : Type :=
  | ValueError (msg : value_error)
  | IndexError
  | KeyError (key : Z)
  | AttributeError
  | MalformedSpeciesError (msg : species_error)
  | MalformedElementSymbolError (malformed_element_symbol : string)
  | MalformedQuantityError (malformed_quantity_string : string).

Inductive result (A : Type) : Type :=
  | Return (a : A)
  | Raise (e : exn).
Arguments Return {A} a.
Arguments Raise {A} e.

#[global] Instance result_ret : MRet result := fun A a => Return a.
#[global] Instance result_bind : MBind result := fun A B k r =>
  match r with
  | Return a => k a
  | Raise e => Raise e
  end.

(** [try: r except cls: h] -- only exceptions of the class [cls] reach the
    handler, every other exception propagates. *)
Definition try_except {A} (r : result A) (cls : exn -> bool) (h : result A)
  : result A :=
  match r with
  | Return a => Return a
  | Raise e => if cls e then h else Raise e
  end.

Definition is_ValueError (e : exn) : bool :=
  match e with ValueError _ => true | _ => false end.
Definition is_IndexError (e : exn) : bool :=
  match e with IndexError => true | _ => false end.
Definition is_AttributeError (e : exn) : bool :=
  match e with AttributeError => true | _ => false end.

(** ** Byte strings *)

Module Str.

Definition code (c : ascii) : N := N_of_ascii c.

Definition in_range (lo hi : N) (c : ascii) : bool :=
  ((lo <=? code c) && (code c <=? hi))%N.

(** [str.upper] / [str.lower] of the C locale: ASCII letters only. *)
Definition upper_char (c : ascii) : ascii :=
  if in_range 97 122 c then ascii_of_N (code c - 32) else c.
Definition lower_char (c : ascii) : ascii :=
  if in_range 65 90 c then ascii_of_N (code c + 32) else c.

Fixpoint map (f : ascii -> ascii) (s : string) : string :=
  match s with
  | EmptyString => EmptyString
  | String c r => String (f c) (map f r)
  end.

Definition upper : string -> string := map upper_char.
Definition lower : string -> string := map lower_char.

Fixpoint forallb (p : ascii -> bool) (s : string) : bool :=
  match s with
  | EmptyString => true
  | String c r => p c && forallb p r
  end.

(** [s * count]: the empty string when [count <= 0]. *)
Definition mul (s : string) (count : Z) : string :=
  Nat.iter (Z.to_nat count) (String.append s) EmptyString.

Definition take (n : nat) (s : string) : string := String.substring 0 n s.

Fixpoint drop (n : nat) (s : string) : string :=
  match n, s with
  | O, _ => s
  | S n', String _ r => drop n' r
  | S _, EmptyString => EmptyString
  end.

(** Length of the longest prefix whose characters are all in [p]. *)
Fixpoint run (p : ascii -> bool) (s : string) : nat :=
  match s with
  | String c r => if p c then S (run p r) else O
  | EmptyString => O
  end.

(** Character classes: [str.isspace] and the [re] classes [\s], [\w], [\d]
    of a pattern compiled without flags. *)
Definition isspace (c : ascii) : bool :=
  in_range 9 13 c || (code c =? 32)%N.
Definition isdigit (c : ascii) : bool := in_range 48 57 c.
Definition isalpha (c : ascii) : bool :=
  in_range 65 90 c || in_range 97 122 c.
Definition isword (c : ascii) : bool :=
  isalpha c || isdigit c || (code c =? 95)%N.

(** [s.split()]: the maximal whitespace-free pieces of [s], in order. *)
Fixpoint split (s : string) : list string :=
  match s with
  | EmptyString => []
  | String c r =>
      if isspace c then split r
      else match r with
           | EmptyString => [String c EmptyString]
           | String c' _ =>
               if isspace c' then String c EmptyString :: split r
               else match split r with
                    | t :: ts => String c t :: ts
                    | [] => [String c EmptyString]
                    end
           end
  end.

(** [s.strip()]. *)
Fixpoint lstrip (s : string) : string :=
  match s with
  | String c r => if isspace c then lstrip r else s
  | EmptyString => EmptyString
  end.
Fixpoint rstrip (s : string) : string :=
  match s with
  | EmptyString => EmptyString
  | String c r =>
      match rstrip r with
      | EmptyString => if isspace c then EmptyString else String c EmptyString
      | r' => String c r'
      end
  end.
Definition strip (s : string) : string := rstrip (lstrip s).

End Str.

(** ** Roman numerals *)

Definition int_roman_tuples : list (Z * string) :=
  [(1000, "M"); (900, "CM"); (500, "D"); (400, "CD");
   (100, "C"); (90, "XC"); (50, "L"); (40, "XL");
   (10, "X"); (9, "IX"); (5, "V"); (4, "IV"); (1, "I")].

(** One turn of the loop of [int_to_roman]; the state is
    [(int_input, result)]. On two [int]s the division [/] of Python 2 is the
    floor division. *)
Definition int_to_roman_step (st : Z * string) (t : Z * string) : Z * string :=
  let '(int_input, result) := st in
  let '(integer, roman) := t in
  let count := int_input / integer in
  (int_input - integer * count, result +:+ Str.mul roman count).

(** [int_to_roman]. The argument is an [int] by typing, so the [TypeError]
    of the first test cannot arise: an integer stands for a value of the
    type [int] of Python 2, and not for a [long], which is what an
    integer beyond [sys.maxint] is; where an argument could be that large,
    the statement bounds it (see [fits_int]). *)
Definition int_to_roman (int_input : Z) : result string :=
  if negb ((0 <? int_input) && (int_input <? 4000))
  then Raise (ValueError ArgumentRange)
  else Return (snd (fold_left int_to_roman_step int_roman_tuples
                              (int_input, EmptyString))).

Definition nums : list ascii := ["M"; "D"; "C"; "L"; "X"; "V"; "I"]%char.
Definition ints : list Z := [1000; 500; 100; 50; 10; 5; 1].

(** [l.index(c)]. *)
Fixpoint list_index (c : ascii) (l : list ascii) : result nat :=
  match l with
  | [] => Raise (ValueError NotInList)
  | x :: l' => if Ascii.eqb x c then Return O
               else i ← list_index c l'; Return (S i)
  end.

(** [l[i]]. *)
Definition list_get {A} (l : list A) (i : nat) : result A :=
  match l !! i with
  | Some a => Return a
  | None => Raise IndexError
  end.

(** [s[i]]. *)
Definition str_get (s : string) (i : nat) : result ascii :=
  match String.get i s with
  | Some c => Return c
  | None => Raise IndexError
  end.

Definition ascii_in (c : ascii) (l : list ascii) : bool :=
  existsb (Ascii.eqb c) l.

(** The second loop of [roman_to_int], from index [i] on for [n] turns:
    the list [places]. *)
Fixpoint roman_places (roman_input : string) (i n : nat) : result (list Z) :=
  match n with
  | O => Return []
  | S n' =>
      c ← str_get roman_input i;
      k ← list_index c nums;
      value ← list_get ints k;
      value ← try_except
                 (c' ← str_get roman_input (i + 1);
                  k' ← list_index c' nums;
                  nextvalue ← list_get ints k';
                  Return (if nextvalue >? value then value * -1 else value))
                 is_IndexError
                 (Return value);
      places ← roman_places roman_input (S i) n';
      Return (value :: places)
  end.

Definition sum_places (places : list Z) : Z :=
  fold_left (fun result n => result + n) places 0.

(** [roman_to_int]. The argument is a [str] by typing. *)
Definition roman_to_int (roman_input : string) : result Z :=
  let roman_input := Str.upper roman_input in
  if negb (Str.forallb (fun c => ascii_in c nums) roman_input)
  then Raise (ValueError (NotRomanNumeral roman_input))
  else
    places ← roman_places roman_input 0 (String.length roman_input);
    let result := sum_places places in
    r ← int_to_roman result;
    if String.eqb r roman_input then Return result
    else Raise (ValueError (NotRomanNumeral roman_input)).

(** ** Builtins used by the parsers *)

(** ['%d' % n]. *)
Definition format_d (n : Z) : string := NilZero.string_of_int (Z.to_int n).

(** [int(s)] on a [str]: surrounding whitespace is dropped, one sign is
    allowed, and what is left must be a non-empty run of decimal digits. *)
Definition python_int (s : string) : result Z :=
  let t := Str.strip s in
  let '(negative, digits) :=
    match t with
    | String c r =>
        if Ascii.eqb c "-" then (true, r)
        else if Ascii.eqb c "+" then (false, r)
        else (false, t)
    | EmptyString => (false, t)
    end in
  match NilZero.uint_of_string digits with
  | Some d => Return (if negative : bool then - Z.of_uint d else Z.of_uint d)
  | None => Raise (ValueError (InvalidLiteral s))
  end.

(** [a, b = l]. *)
Definition unpack2 (l : list string) : result (string * string) :=
  match l with
  | [a; b] => Return (a, b)
  | _ => Raise (ValueError (Unpack (length l)))
  end.

(** ** The regular expression of the species parser *)

Module Re.

(** A greedy quantified character class: [least] is [1] for [+] and [0]
    for [*]; [captured] tells whether it is a group. *)
Record item : Type :=
  { cls : ascii -> bool; least : nat; captured : bool }.

(** The groups of a match in which [it] took the first [k] characters of
    [s] and the rest of the pattern captured [gs]. *)
Definition with_group (it : item) (s : string) (k : nat) (gs : list string)
  : list string :=
  if captured it then Str.take k s :: gs else gs.

(** One item against [s], the rest of the pattern being [rest]: the item
    takes [k] characters, and gives them back one at a time for as long as
    [rest] fails on what follows. *)
Fixpoint backtrack (rest : string -> option (list string)) (it : item)
    (s : string) (k : nat) : option (list string) :=
  let attempt :=
    if (least it <=? k)%nat then
      match rest (Str.drop k s) with
      | Some gs => Some (with_group it s k gs)
      | None => None
      end
    else None in
  match attempt, k with
  | Some gs, _ => Some gs
  | None, S k' => backtrack rest it s k'
  | None, O => None
  end.

(** [re.match]: the pattern is anchored at the start of [s] only. Each item
    first takes the longest run of its class; the groups of the first
    success are returned. *)
Fixpoint match_items (p : list item) (s : string) : option (list string) :=
  match p with
  | [] => Some []
  | it :: p' => backtrack (match_items p') it s (Str.run (cls it) s)
  end.

(** [^(\w+)\s*(\d+)] *)
Definition species_pattern : list item :=
  [ {| cls := Str.isword; least := 1; captured := true |};
    {| cls := Str.isspace; least := 0; captured := false |};
    {| cls := Str.isdigit; least := 1; captured := true |} ].

(** [re.match(p, s).groups()]: [re.match] returns [None] when nothing
    matches, and [None] has no attribute [groups]. *)
Definition match_groups (p : list item) (s : string) : result (list string) :=
  match match_items p s with
  | Some gs => Return gs
  | None => Raise AttributeError
  end.

End Re.

(** ** The element-symbol registry and the species notation *)

(** [OrderedDict(items)]: a later record with the same key replaces an
    earlier one. *)
Definition OrderedDict {K V} `{Countable K} (items : list (K * V)) : gmap K V :=
  fold_left (fun d kv => <[kv.1 := kv.2]> d) items ∅.

Section Registry.

(** The records [(atomic_number, symbol)] of [data/atomic_symbols.dat], a
    data file read when the module is loaded. *)
Variable atomic_symbols_data : list (Z * string).

Definition symbol2atomic_number : gmap string Z :=
  OrderedDict (zip (atomic_symbols_data.*2) (atomic_symbols_data.*1)).

Definition atomic_number2symbol : gmap Z string :=
  OrderedDict atomic_symbols_data.

Definition reformat_element_symbol (element_string : string) : result string :=
  c ← str_get element_string 0;
  Return (String (Str.upper_char c) EmptyString
          +:+ Str.lower (Str.drop 1 element_string)).

Definition element_symbol2atomic_number (element_string : string) : result Z :=
  reformatted_element_string ← reformat_element_symbol element_string;
  match symbol2atomic_number !! reformatted_element_string with
  | None => Raise (MalformedElementSymbolError element_string)
  | Some n => Return n
  end.

Definition atomic_number2element_symbol (atomic_number : Z) : result string :=
  match atomic_number2symbol !! atomic_number with
  | Some s => Return s
  | None => Raise (KeyError atomic_number)
  end.

Definition species_tuple_to_string (species_tuple : Z * Z)
    (roman_numerals : bool) : result string :=
  let '(atomic_number, ion_number) := species_tuple in
  element_symbol ← atomic_number2element_symbol atomic_number;
  if roman_numerals then
    roman_ion_number ← int_to_roman (ion_number + 1);
    Return (element_symbol +:+ " " +:+ roman_ion_number)
  else
    Return (element_symbol +:+ " " +:+ format_d ion_number).

(** The first [try] of [species_string_to_tuple]: the two fields. *)
Definition species_fields (species_string : string)
  : result (string * string) :=
  try_except
    (gs ← Re.match_groups Re.species_pattern species_string; unpack2 gs)
    is_AttributeError
    (try_except
       (unpack2 (Str.split species_string))
       is_ValueError
       (Raise (MalformedSpeciesError (NotOfFormat species_string)))).

(** The second [try] of [species_string_to_tuple]: the ion number. *)
Definition species_ion_number (ion_number_string : string) : result Z :=
  try_except
    (roman_to_int ion_number_string)
    is_ValueError
    (try_except
       (python_int ion_number_string)
       is_ValueError
       (Raise (MalformedSpeciesError (IonNumberNotParsed ion_number_string)))).

Definition species_string_to_tuple (species_string : string)
  : result (Z * Z) :=
  '(element_symbol, ion_number_string) ← species_fields species_string;
  atomic_number ← element_symbol2atomic_number element_symbol;
  ion_number ← species_ion_number ion_number_string;
  if ion_number >? atomic_number
  then Raise (ValueError SpeciesDoesNotExist)
  else Return (atomic_number, ion_number - 1).

End Registry.

(** ** Quantity strings *)

Section Quantity.

(** [float] values and the quantities of [astropy.units], with the two
    calls [parse_quantity] makes into them: the builtin [float(s)] and the
    constructor [u.Quantity(value, unit_string)]. *)
Variables (float quantity : Type).
Variable python_float : string -> result float.
Variable Quantity : float -> string -> result quantity.

(** [parse_quantity]. The argument is a string by typing, so the first
    test passes. *)
Definition parse_quantity (quantity_string : string) : result quantity :=
  '(value_string, unit_string) ←
     try_except (unpack2 (Str.split quantity_string)) is_ValueError
       (Raise (MalformedQuantityError quantity_string));
  value ← try_except (python_float value_string) is_ValueError
            (Raise (MalformedQuantityError quantity_string));
  q ← try_except (Quantity value unit_string) is_ValueError
        (Raise (MalformedQuantityError quantity_string));
  Return q.

End Quantity.

(** ** A registry to run the functions on *)

(** Modelled from the spec: [data/atomic_symbols.dat] is not among the
    sources; these are its first thirty records, atomic number and symbol in
    canonical capitalisation, as section 3 of the specification describes
    the table (silicon is 14 and iron 26 in its examples). *)
Definition atomic_symbols_sample : list (Z * string) :=
  [(1, "H"); (2, "He"); (3, "Li"); (4, "Be"); (5, "B"); (6, "C"); (7, "N");
   (8, "O"); (9, "F"); (10, "Ne"); (11, "Na"); (12, "Mg"); (13, "Al");
   (14, "Si"); (15, "P"); (16, "S"); (17, "Cl"); (18, "Ar"); (19, "K");
   (20, "Ca"); (21, "Sc"); (22, "Ti"); (23, "V"); (24, "Cr"); (25, "Mn");
   (26, "Fe"); (27, "Co"); (28, "Ni"); (29, "Cu"); (30, "Zn")].

(** A stand-in for the two external calls, to run [parse_quantity] on
    concrete strings: the numeric token must be a decimal integer literal,
    every unit string is accepted, and the quantity is the pair of the value
    and the unit string. *)
Definition float_sample (s : string) : result Z := python_int s.
Definition Quantity_sample (value : Z) (unit_string : string)
  : result (Z * string) := Return (value, unit_string).

(** ** Vocabulary of the properties *)

(** The canonical numeral of [n], written digit by digit: the thousands, the
    hundreds, the tens and the units each have their own subtractive form. *)
Definition roman_digit (one five ten : string) (d : Z) : string :=
  match d with
  | 1 => one
  | 2 => one +:+ one
  | 3 => one +:+ one +:+ one
  | 4 => one +:+ five
  | 5 => five
  | 6 => five +:+ one
  | 7 => five +:+ one +:+ one
  | 8 => five +:+ one +:+ one +:+ one
  | 9 => one +:+ ten
  | _ => EmptyString
  end.

Definition canonical_roman (n : Z) : string :=
  roman_digit "M" "" "" (n / 1000)
  +:+ roman_digit "C" "D" "M" (n / 100 mod 10)
  +:+ roman_digit "X" "L" "C" (n / 10 mod 10)
  +:+ roman_digit "I" "V" "X" (n mod 10).

(** A character of [nums]. *)
Definition is_numeral (c : ascii) : bool := ascii_in c nums.

(** A symbol in the capitalisation [reformat_element_symbol] produces: one
    upper-case letter, then lower-case letters. *)
Definition canonical_symbol (symbol : string) : bool :=
  match symbol with
  | String c r =>
      Str.in_range 65 90 c && Str.forallb (Str.in_range 97 122) r
  | EmptyString => false
  end.

Definition nonempty (s : string) : bool :=
  match s with EmptyString => false | String _ _ => true end.

(** The inputs the pattern of the species parser matches: [s] starts with
    word characters [w], then whitespace, then digits [d]; what follows the
    digits is not constrained. *)
Definition species_prefix (s w d : string) : Prop :=
  exists sp rest,
    s = w +:+ sp +:+ d +:+ rest
    /\ nonempty w = true /\ Str.forallb Str.isword w = true
    /\ Str.forallb Str.isspace sp = true
    /\ nonempty d = true /\ Str.forallb Str.isdigit d = true.

(** A token as [split] produces them. *)
Definition is_token (s : string) : bool :=
  nonempty s && Str.forallb (fun c => negb (Str.isspace c)) s.

(** What [int_to_roman] and [roman_to_int] are checked for at one [n]. *)
Definition roman_codec_ok (n : Z) : bool :=
  match int_to_roman n with
  | Return s =>
      String.eqb s (canonical_roman n)
      && nonempty s
      && Str.forallb is_numeral s
      && match roman_to_int s with
         | Return m => m =? n
         | Raise _ => false
         end
  | Raise _ => false
  end.

(** The integers [lo], [lo + 1], ... ([len] of them). *)
Definition Z_range (lo : Z) (len : nat) : list Z :=
  List.map (fun k => lo + Z.of_nat k) (seq 0 len).

(** The numeral [int_to_roman] returns at [n] is at most fifteen
    characters long. *)
Definition roman_length_ok (n : Z) : bool :=
  match int_to_roman n with
  | Return s => (String.length s <=? 15)%nat
  | Raise _ => false
  end.

(** A string of whitespace. *)
Definition is_blank (s : string) : bool := Str.forallb Str.isspace s.

(** [ints[nums.index(c)]], the value of one character. *)
Definition numeral_int (c : ascii) : result Z :=
  k ← list_index c nums; list_get ints k.

(** ** The smoothing filter and the exporter *)

(** The exceptions these two functions raise themselves, with the message
    of the raise statement. *)
Inductive py_error : Type :=
  | PyValueError (message : string)
  | PyTypeError (message : string).

(** An integer that is an [int], and not a [long], on every build of
    Python 2, where [sys.maxint] is at least [2 ^ 31 - 1]; such an integer
    is also within the width of numpy's integers. *)
Definition fits_int (n : Z) : bool := (- 2 ^ 31 <=? n) && (n <? 2 ^ 31).

(** What is known of numpy's absolute value and addition: on integers whose
    result fits, they are the absolute value and the sum. *)
Definition numpy_exact (np_abs : Z -> Z) (np_add : Z -> Z -> Z) : Prop :=
  (forall x, fits_int x = true -> fits_int (Z.abs x) = true ->
             np_abs x = Z.abs x)
  /\ (forall x y, fits_int x = true -> fits_int y = true ->
                  fits_int (x + y) = true -> np_add x y = x + y).

(** [range(start, stop)]. *)
Definition py_range (start stop : Z) : list Z :=
  Z_range start (Z.to_nat (stop - start)).

Section SavitzkyGolay.

(** The numerical part of the filter is numpy's: the pseudo-inverse of the
    matrix [b], the padding of the signal [y] by [half_window] values at
    each end and the convolution. It is taken as one call, [numpy_filter],
    whose outcome has the type [filtered]. *)
Variables (array number filtered : Type).
Variable numpy_filter :
  list (list Z) -> Z -> array -> Z -> number -> filtered.

(** [np.abs] returns an integer of numpy, of fixed width, and so does [+]
    on such an integer: both may wrap around at the width, which depends on
    the build. They are taken as they are, [np_abs] and [np_add]; what is
    known of them is what they do away from the width (see
    [numpy_exact]). *)
Variable np_abs : Z -> Z.
Variable np_add : Z -> Z -> Z.

(** [savitzky_golay]. [window_size] and [order] are [int]s by typing, so
    [np.int] returns them and the [ValueError] handler of the first [try]
    is not entered. After the two tests [window_size] is at least 1, so
    [window_size - 1], [%] and [//] stay within the width. *)
Definition savitzky_golay (y : array) (window_size order deriv : Z)
    (rate : number) : py_error + filtered :=
  let window_size := np_abs window_size in
  let order := np_abs order in
  if negb (window_size mod 2 =? 1) || (window_size <? 1) then
    inl (PyTypeError "window_size size must be a positive odd number")
  else if window_size <? np_add order 2 then
    inl (PyTypeError "window_size is too small for the polynomials order")
  else
    let order_range := py_range 0 (np_add order 1) in
    let half_window := (window_size - 1) / 2 in
    let b := List.map (fun k => List.map (fun i => k ^ i) order_range)
                      (py_range (- half_window) (half_window + 1)) in
    inr (numpy_filter b half_window y deriv rate).

End SavitzkyGolay.

Section Synpp.

(** The reference table [radial1d_mdl.atom_data.synpp_refs] is [None] or a
    data frame; everything [create_synpp_yaml] does after its first
    assignment into that table (the optical depths, the YAML file) is the
    call [export] on the table. *)
Variable frame : Type.
Variable set_column : frame -> string -> frame.
Variable export : frame -> py_error + unit.

(** [refs[key] = value] on a value that may be [None]. *)
Definition setitem (refs : option frame) (key : string)
  : py_error + frame :=
  match refs with
  | Some f => inr (set_column f key)
  | None =>
      inl (PyTypeError "'NoneType' object does not support item assignment")
  end.

(** [create_synpp_yaml]: the list is what is sent to [logger.warning]. *)
Definition create_synpp_yaml (synpp_refs : option frame)
  : list string * (py_error + unit) :=
  (["Currently only works with Si and a special setup"],
   match synpp_refs with
   | Some _ =>
       inl (PyValueError
              "The current atom dataset does not contain the necesarry reference files (please contact the authors)")
   | None =>
       match setitem synpp_refs "ref_log_tau" with
       | inl e => inl e
       | inr refs => export refs
       end
   end).

End Synpp.

(** * Properties *)

Ltac unbind := unfold mbind, result_bind, mret, result_ret in *.

(** ** Characters *)

Ltac by_cases_on_char c :=
  destruct c as [[] [] [] [] [] [] [] []]; vm_compute; try discriminate; auto.

Lemma numeral_not_digit c : is_numeral c = true -> Str.isdigit c = false.
Proof. by_cases_on_char c. Qed.

Lemma numeral_not_space c : is_numeral c = true -> Str.isspace c = false.
Proof. by_cases_on_char c. Qed.

Lemma digit_not_numeral c : Str.isdigit c = true -> is_numeral c = false.
Proof. by_cases_on_char c. Qed.

Lemma digit_not_space c : Str.isdigit c = true -> Str.isspace c = false.
Proof. by_cases_on_char c. Qed.

Lemma digit_upper c : Str.isdigit c = true -> Str.upper_char c = c.
Proof. by_cases_on_char c. Qed.

Lemma alpha_is_word c : Str.isalpha c = true -> Str.isword c = true.
Proof. by_cases_on_char c. Qed.

Lemma alpha_not_digit c : Str.isalpha c = true -> Str.isdigit c = false.
Proof. by_cases_on_char c. Qed.

Lemma alpha_not_space c : Str.isalpha c = true -> Str.isspace c = false.
Proof. by_cases_on_char c. Qed.

Lemma upper_is_alpha c : Str.in_range 65 90 c = true -> Str.isalpha c = true.
Proof. by_cases_on_char c. Qed.

Lemma lower_is_alpha c : Str.in_range 97 122 c = true -> Str.isalpha c = true.
Proof. by_cases_on_char c. Qed.

Lemma upper_char_fixes_upper c :
  Str.in_range 65 90 c = true -> Str.upper_char c = c.
Proof. by_cases_on_char c. Qed.

Lemma lower_char_fixes_lower c :
  Str.in_range 97 122 c = true -> Str.lower_char c = c.
Proof. by_cases_on_char c. Qed.

(** Every numeral has a value: [ints[nums.index(c)]] does not raise. *)
Lemma numeral_value c :
  is_numeral c = true ->
  exists v, (k ← list_index c nums; list_get ints k) = Return v.
Proof.
  destruct c as [[] [] [] [] [] [] [] []]; vm_compute; try discriminate;
    intros _; eexists; reflexivity.
Qed.

(** ** Strings *)

Lemma forallb_impl (p q : ascii -> bool) s :
  (forall c, p c = true -> q c = true) ->
  Str.forallb p s = true -> Str.forallb q s = true.
Proof.
  intros Hpq. induction s as [|c r IH]; simpl; [reflexivity|].
  intros [Hc Hr]%andb_true_iff. rewrite (Hpq _ Hc), (IH Hr). reflexivity.
Qed.

Lemma forallb_app p a b :
  Str.forallb p (a +:+ b) = Str.forallb p a && Str.forallb p b.
Proof.
  induction a as [|c r IH]; simpl; [reflexivity|].
  rewrite IH. apply andb_assoc.
Qed.

Lemma forallb_get p s i c :
  Str.forallb p s = true -> String.get i s = Some c -> p c = true.
Proof.
  revert i. induction s as [|x r IH]; intros i; simpl; [discriminate|].
  intros [Hx Hr]%andb_true_iff. destruct i as [|i].
  - intros [= <-]. exact Hx.
  - apply IH, Hr.
Qed.

Lemma get_lt s i : (i < String.length s)%nat -> exists c, String.get i s = Some c.
Proof.
  revert i. induction s as [|x r IH]; intros i; simpl; [lia|].
  destruct i as [|i]; [eauto|]. intros H. apply IH. lia.
Qed.

Lemma upper_idem_on p s :
  (forall c, p c = true -> Str.upper_char c = c) ->
  Str.forallb p s = true -> Str.upper s = s.
Proof.
  intros Hp. induction s as [|c r IH]; simpl; [reflexivity|].
  intros [Hc Hr]%andb_true_iff. unfold Str.upper in *. simpl.
  rewrite (Hp _ Hc), (IH Hr). reflexivity.
Qed.

(** ** The roman-numeral codec *)

Lemma int_to_roman_out_of_range n :
  ~ (1 <= n <= 3999) -> int_to_roman n = Raise (ValueError ArgumentRange).
Proof.
  intros H. unfold int_to_roman.
  destruct (0 <? n) eqn:H0; destruct (n <? 4000) eqn:H1; simpl; try reflexivity.
  apply Z.ltb_lt in H0, H1. lia.
Qed.

Lemma int_to_roman_in_range n r :
  int_to_roman n = Return r -> 1 <= n <= 3999.
Proof.
  intros H. destruct (Z_le_dec 1 n) as [H1|H1];
    [destruct (Z_le_dec n 3999) as [H2|H2]; [lia|]|];
    rewrite int_to_roman_out_of_range in H by lia; discriminate.
Qed.

Lemma int_to_roman_raises n e :
  int_to_roman n = Raise e -> e = ValueError ArgumentRange /\ ~ (1 <= n <= 3999).
Proof.
  unfold int_to_roman.
  destruct (0 <? n) eqn:H0; destruct (n <? 4000) eqn:H1; simpl;
    intros [= <-]; split; try reflexivity;
    try apply Z.ltb_ge in H0; try apply Z.ltb_ge in H1; lia.
Qed.

(** The codec, run on every integer of the range. *)
Lemma roman_codec_table : forallb roman_codec_ok (Z_range 1 3999) = true.
Proof. vm_compute. reflexivity. Qed.

Lemma Z_range_In lo len n :
  lo <= n < lo + Z.of_nat len -> In n (Z_range lo len).
Proof.
  intros H. unfold Z_range. apply in_map_iff.
  exists (Z.to_nat (n - lo)). split; [lia|]. apply in_seq. lia.
Qed.

Lemma roman_codec_sound n :
  1 <= n <= 3999 ->
  int_to_roman n = Return (canonical_roman n)
  /\ roman_to_int (canonical_roman n) = Return n
  /\ nonempty (canonical_roman n) = true
  /\ Str.forallb is_numeral (canonical_roman n) = true.
Proof.
  intros Hn.
  assert (Hok : roman_codec_ok n = true).
  { eapply forallb_forall; [apply roman_codec_table | apply Z_range_In; lia]. }
  unfold roman_codec_ok in Hok.
  destruct (int_to_roman n) as [s|e]; [|discriminate].
  apply andb_true_iff in Hok as [Hok Hdec].
  apply andb_true_iff in Hok as [Hok Hnum].
  apply andb_true_iff in Hok as [Heq Hne].
  apply String.eqb_eq in Heq. subst s.
  destruct (roman_to_int (canonical_roman n)) as [m|e]; [|discriminate].
  apply Z.eqb_eq in Hdec. subst m. auto.
Qed.

Lemma bind_Return {A B} (a : A) (k : A -> result B) : Return a ≫= k = k a.
Proof. reflexivity. Qed.

Lemma bind_Raise {A B} e (k : A -> result B) : Raise e ≫= k = Raise e.
Proof. reflexivity. Qed.

Lemma roman_places_S s i n :
  roman_places s i (S n) =
    c ← str_get s i;
    k ← list_index c nums;
    value ← list_get ints k;
    value ← try_except
               (c' ← str_get s (i + 1);
                k' ← list_index c' nums;
                nextvalue ← list_get ints k';
                Return (if nextvalue >? value then value * -1 else value))
               is_IndexError
               (Return value);
    places ← roman_places s (S i) n;
    Return (value :: places).
Proof. reflexivity. Qed.

(** The second loop of [roman_to_int] runs to its end on a string of
    numerals. *)
Lemma roman_places_total s :
  Str.forallb is_numeral s = true ->
  forall n i, (i + n = String.length s)%nat ->
  exists places, roman_places s i n = Return places.
Proof.
  intros Hs. induction n as [|n IH]; intros i Hi; [simpl; eauto|].
  rewrite roman_places_S.
  destruct (get_lt s i) as [c Hc]; [lia|].
  unfold str_get. rewrite Hc, bind_Return.
  pose proof (forallb_get _ _ _ _ Hs Hc) as Hnum.
  destruct (numeral_value c Hnum) as [v Hv].
  destruct (list_index c nums) as [k|]; [|discriminate].
  unfold mbind at 1, result_bind at 1 in Hv.
  rewrite bind_Return, Hv, bind_Return.
  destruct (IH (S i)) as [ps Hps]; [lia|]. rewrite Hps.
  destruct (String.get (i + 1) s) as [c'|] eqn:Hc'.
  - pose proof (forallb_get _ _ _ _ Hs Hc') as Hnum'.
    destruct (numeral_value c' Hnum') as [v' Hv'].
    rewrite bind_Return.
    destruct (list_index c' nums) as [k'|]; [|discriminate].
    unfold mbind at 1, result_bind at 1 in Hv'.
    rewrite bind_Return, Hv'. simpl. eauto.
  - simpl. eauto.
Qed.

(** What [roman_to_int] does, case by case. *)
Lemma roman_to_int_cases s :
  let u := Str.upper s in
  (Str.forallb is_numeral u = false /\
   roman_to_int s = Raise (ValueError (NotRomanNumeral u)))
  \/ (Str.forallb is_numeral u = true /\
      exists places,
        roman_places u 0 (String.length u) = Return places /\
        let v := sum_places places in
        (int_to_roman v = Return u /\ roman_to_int s = Return v)
        \/ (1 <= v <= 3999 /\ int_to_roman v <> Return u /\
            roman_to_int s = Raise (ValueError (NotRomanNumeral u)))
        \/ (~ (1 <= v <= 3999) /\
            roman_to_int s = Raise (ValueError ArgumentRange))).
Proof.
  intros u. unfold roman_to_int. fold u. fold is_numeral.
  destruct (Str.forallb is_numeral u) eqn:Hu; simpl; [right|left; auto].
  split; [reflexivity|].
  destruct (roman_places_total u Hu (String.length u) 0) as [ps Hps]; [lia|].
  exists ps. split; [exact Hps|]. rewrite Hps. unbind. simpl.
  destruct (int_to_roman (sum_places ps)) as [r|e] eqn:Hr.
  - pose proof (int_to_roman_in_range _ _ Hr).
    destruct (String.eqb r u) eqn:Heq.
    + apply String.eqb_eq in Heq. subst r. left. auto.
    + apply String.eqb_neq in Heq. right. left.
      repeat split; try lia; try reflexivity. congruence.
  - apply int_to_roman_raises in Hr as [-> Hr]. right. right. auto.
Qed.

(** [roman_to_int] raises nothing but [ValueError]. *)
Lemma roman_to_int_raises s e :
  roman_to_int s = Raise e -> is_ValueError e = true.
Proof.
  intros H. destruct (roman_to_int_cases s) as [[_ H1]|[_ [ps [_ H1]]]].
  - rewrite H1 in H. injection H as <-. reflexivity.
  - destruct H1 as [[_ H1]|[[_ [_ H1]]|[_ H1]]]; rewrite H1 in H;
      try discriminate; injection H as <-; reflexivity.
Qed.

(** A value [roman_to_int] returns is in range, and encodes back to the
    upper-cased input. *)
Lemma roman_to_int_returns s v :
  roman_to_int s = Return v ->
  1 <= v <= 3999 /\ int_to_roman v = Return (Str.upper s).
Proof.
  intros H. destruct (roman_to_int_cases s) as [[_ H1]|[_ [ps [_ H1]]]].
  - rewrite H1 in H. discriminate.
  - destruct H1 as [[Henc H1]|[[_ [_ H1]]|[_ H1]]]; rewrite H1 in H;
      try discriminate. injection H as <-.
    split; [eapply int_to_roman_in_range; eauto | exact Henc].
Qed.

(** C2 -- roman round trip: for every integer [n] of [1, 3999],
    [int_to_roman n] returns a numeral, [roman_to_int] maps that numeral back
    to [n], and the numeral, built by the greedy pass over the thirteen
    pairs of [int_roman_tuples], is the canonical subtractive form of [n];
    it is also the only numeral (up to case) that [roman_to_int] reads as
    [n]. *)
Theorem roman_round_trip n :
  1 <= n <= 3999 ->
  exists s,
    int_to_roman n = Return s
    /\ roman_to_int s = Return n
    /\ s = canonical_roman n
    /\ forall t, roman_to_int t = Return n -> Str.upper t = s.
Proof.
  intros Hn. destruct (roman_codec_sound n Hn) as (Henc & Hdec & _ & _).
  exists (canonical_roman n). repeat split; try assumption.
  intros t Ht. apply roman_to_int_returns in Ht as [_ Ht]. congruence.
Qed.

Lemma roman_round_trip_1999 :
  1 <= 1999 <= 3999 /\
  exists s,
    int_to_roman 1999 = Return s
    /\ roman_to_int s = Return 1999
    /\ s = canonical_roman 1999
    /\ forall t, roman_to_int t = Return 1999 -> Str.upper t = s.
Proof. split; [lia | apply (roman_round_trip 1999); lia]. Defined.

(** C5, on the code -- canonical-only decoding: [roman_to_int] raises
    the "not a valid roman numeral" [ValueError] for every string with a
    character outside [nums] (after upper-casing), and for every string of
    numerals whose signed sum [v] lies in [1, 3999] while
    [int_to_roman v] differs from the upper-cased input; when [v] is
    outside [1, 3999] the [ValueError] of [int_to_roman] ("Argument must be
    between 1 and 3999") comes out instead. "IIII" and "IL" are rejected as
    invalid numerals, and every numeral [int_to_roman] produces decodes and
    encodes back to itself. *)
Theorem roman_to_int_canonical_only :
  (forall s,
     let u := Str.upper s in
     (Str.forallb is_numeral u = false ->
      roman_to_int s = Raise (ValueError (NotRomanNumeral u)))
     /\ (Str.forallb is_numeral u = true ->
         exists places,
           roman_places u 0 (String.length u) = Return places /\
           let v := sum_places places in
           (1 <= v <= 3999 -> int_to_roman v <> Return u ->
            roman_to_int s = Raise (ValueError (NotRomanNumeral u)))
           /\ (~ (1 <= v <= 3999) ->
               roman_to_int s = Raise (ValueError ArgumentRange))
           /\ (int_to_roman v = Return u -> roman_to_int s = Return v)))
  /\ roman_to_int "IIII" = Raise (ValueError (NotRomanNumeral "IIII"))
  /\ roman_to_int "IL" = Raise (ValueError (NotRomanNumeral "IL"))
  /\ (forall n s, int_to_roman n = Return s ->
        roman_to_int s = Return n /\
        (v ← roman_to_int s; int_to_roman v) = Return s).
Proof.
  split; [|split; [reflexivity|split; [reflexivity|]]].
  - intros s u. destruct (roman_to_int_cases s) as [[Hu H]|[Hu (ps & Hps & H)]];
      fold u in Hu, H.
    + split; [auto|]. rewrite Hu. discriminate.
    + split; [rewrite Hu; discriminate|]. intros _.
      fold u in Hps. exists ps. split; [exact Hps|]. simpl in *.
      destruct H as [[Henc H]|[(Hv & Hne & H)|[Hv H]]]; repeat split; intros;
        try assumption; try contradiction.
      * apply int_to_roman_in_range in Henc. contradiction.
      * rewrite int_to_roman_out_of_range in * by assumption. discriminate.
  - intros n s Hs. pose proof (int_to_roman_in_range _ _ Hs) as Hn.
    destruct (roman_codec_sound n Hn) as (Henc & Hdec & _).
    assert (s = canonical_roman n) as -> by congruence.
    split; [exact Hdec|]. rewrite Hdec. exact Henc.
Qed.

(** The string "MMMM": numerals whose signed sum, 4000, does not encode
    back to it, and yet the error is not the invalid-numeral one but the
    range error of [int_to_roman]. *)
Lemma roman_to_int_MMMM_range_error :
  Str.forallb is_numeral (Str.upper "MMMM") = true
  /\ (ps ← roman_places "MMMM" 0 4; Return (sum_places ps)) = Return 4000
  /\ int_to_roman 4000 <> Return "MMMM"
  /\ roman_to_int "MMMM" = Raise (ValueError ArgumentRange)
  /\ roman_to_int "MMMM" <> Raise (ValueError (NotRomanNumeral "MMMM")).
Proof. repeat split; try reflexivity; vm_compute; discriminate. Qed.

(** ** Prefixes, suffixes and runs *)

Lemma take_app_length a b : Str.take (String.length a) (a +:+ b) = a.
Proof.
  unfold Str.take. induction a as [|c r IH]; simpl.
  - destruct b; reflexivity.
  - rewrite IH. reflexivity.
Qed.

Lemma drop_app_length a b : Str.drop (String.length a) (a +:+ b) = b.
Proof. induction a as [|c r IH]; simpl; auto. Qed.

Lemma take_drop n s : Str.take n s +:+ Str.drop n s = s.
Proof.
  unfold Str.take. revert s.
  induction n as [|n IH]; intros [|c r]; simpl; try reflexivity.
  change (String c (substring 0 n r +:+ Str.drop n r) = String c r).
  rewrite IH. reflexivity.
Qed.

Lemma forallb_take_run p n s :
  (n <= Str.run p s)%nat -> Str.forallb p (Str.take n s) = true.
Proof.
  unfold Str.take. revert s.
  induction n as [|n IH]; intros [|c r]; simpl; try reflexivity; try lia.
  destruct (p c) eqn:Hc; [|lia]. intros H. rewrite IH by lia. reflexivity.
Qed.

Lemma run_le_length p s : (Str.run p s <= String.length s)%nat.
Proof. induction s as [|c r IH]; simpl; [lia|]. destruct (p c); lia. Qed.

Lemma run_app p a b :
  Str.forallb p a = true ->
  Str.run p (a +:+ b) = (String.length a + Str.run p b)%nat.
Proof.
  induction a as [|c r IH]; simpl; [reflexivity|].
  intros [-> Hr]%andb_true_iff. rewrite IH by assumption. reflexivity.
Qed.

Lemma run_none p s :
  Str.forallb (fun c => negb (p c)) s = true -> Str.run p s = O.
Proof.
  destruct s as [|c r]; simpl; [reflexivity|].
  intros [Hc _]%andb_true_iff. apply negb_true_iff in Hc. rewrite Hc. reflexivity.
Qed.

Lemma run_all p s : Str.forallb p s = true -> Str.run p s = String.length s.
Proof.
  induction s as [|c r IH]; simpl; [reflexivity|].
  intros [-> Hr]%andb_true_iff. rewrite IH by assumption. reflexivity.
Qed.

Lemma nonempty_length s : nonempty s = true -> (1 <= String.length s)%nat.
Proof. destruct s; simpl; [discriminate|lia]. Qed.

Lemma append_cons c a b : String c a +:+ b = String c (a +:+ b).
Proof. reflexivity. Qed.

Lemma append_empty_r s : s +:+ EmptyString = s.
Proof.
  induction s as [|c r IH]; [reflexivity|]. rewrite append_cons, IH. reflexivity.
Qed.

(** ** The backtracking matcher *)

Section Backtrack.

Variables (rest : string -> option (list string)) (it : Re.item) (s : string).

Lemma backtrack_eq k :
  Re.backtrack rest it s k =
    match
      (if (Re.least it <=? k)%nat then
         match rest (Str.drop k s) with
         | Some gs => Some (Re.with_group it s k gs)
         | None => None
         end
       else None), k
    with
    | Some gs, _ => Some gs
    | None, S k' => Re.backtrack rest it s k'
    | None, O => None
    end.
Proof. destruct k; reflexivity. Qed.

Lemma backtrack_first k gs :
  (Re.least it <= k)%nat -> rest (Str.drop k s) = Some gs ->
  Re.backtrack rest it s k = Some (Re.with_group it s k gs).
Proof.
  intros Hk Hr. rewrite backtrack_eq, Hr.
  destruct (Re.least it <=? k)%nat eqn:E; [reflexivity|].
  apply Nat.leb_gt in E. lia.
Qed.

Lemma backtrack_none k :
  (forall j, (Re.least it <= j <= k)%nat -> rest (Str.drop j s) = None) ->
  Re.backtrack rest it s k = None.
Proof.
  induction k as [|k IH]; intros H; rewrite backtrack_eq.
  - destruct (Re.least it <=? 0)%nat eqn:E; [|reflexivity].
    apply Nat.leb_le in E. rewrite H by lia. reflexivity.
  - destruct (Re.least it <=? S k)%nat eqn:E.
    + apply Nat.leb_le in E. rewrite H by lia. apply IH.
      intros j Hj. apply H. lia.
    + apply IH. intros j Hj. apply H. lia.
Qed.

Lemma backtrack_some k gs :
  Re.backtrack rest it s k = Some gs ->
  exists j gs', (Re.least it <= j <= k)%nat
                /\ rest (Str.drop j s) = Some gs'
                /\ gs = Re.with_group it s j gs'.
Proof.
  induction k as [|k IH]; rewrite backtrack_eq.
  - destruct (Re.least it <=? 0)%nat eqn:E; [|discriminate].
    apply Nat.leb_le in E.
    destruct (rest (Str.drop 0 s)) as [gs'|] eqn:Hr; [|discriminate].
    intros [= <-]. exists O, gs'. repeat split; auto; lia.
  - destruct (Re.least it <=? S k)%nat eqn:E.
    + apply Nat.leb_le in E.
      destruct (rest (Str.drop (S k) s)) as [gs'|] eqn:Hr.
      * intros [= <-]. exists (S k), gs'. repeat split; auto; lia.
      * intros H. destruct (IH H) as (j & gs' & Hj & Hgs).
        exists j, gs'. split; [lia|exact Hgs].
    + intros H. destruct (IH H) as (j & gs' & Hj & Hgs).
      exists j, gs'. split; [lia|exact Hgs].
Qed.

End Backtrack.

Lemma backtrack_complete rest it s k j :
  (Re.least it <= j <= k)%nat -> rest (Str.drop j s) <> None ->
  Re.backtrack rest it s k <> None.
Proof.
  intros Hj Hr H. apply Hr.
  assert (Hall : forall i, (Re.least it <= i <= k)%nat ->
                           rest (Str.drop i s) = None).
  { clear Hj Hr j. induction k as [|k IH]; intros i Hi;
      rewrite backtrack_eq in H.
    - assert (i = O) as -> by lia.
      destruct (Re.least it <=? 0)%nat eqn:E; [|apply Nat.leb_gt in E; lia].
      destruct (rest (Str.drop 0 s)); [discriminate|reflexivity].
    - destruct (Re.least it <=? S k)%nat eqn:E.
      + destruct (rest (Str.drop (S k) s)) eqn:Hr; [discriminate|].
        destruct (Nat.eq_dec i (S k)) as [->|]; [exact Hr|].
        apply IH; [exact H|lia].
      + apply Nat.leb_gt in E. apply IH; [exact H|lia]. }
  apply Hall. lia.
Qed.

(** ** The species pattern *)

Lemma take_all s : Str.take (String.length s) s = s.
Proof.
  rewrite <- (append_empty_r s) at 2. apply take_app_length.
Qed.

(** [(\d+)] at the end of the pattern takes the whole run of digits. *)
Lemma match_digits t :
  Re.match_items [ {| Re.cls := Str.isdigit; Re.least := 1; Re.captured := true |} ] t
  = if (1 <=? Str.run Str.isdigit t)%nat
    then Some [Str.take (Str.run Str.isdigit t) t]
    else None.
Proof.
  simpl Re.match_items.
  destruct (1 <=? Str.run Str.isdigit t)%nat eqn:E.
  - apply Nat.leb_le in E. erewrite backtrack_first; [reflexivity|exact E|reflexivity].
  - apply Nat.leb_gt in E. apply backtrack_none. simpl. intros j Hj. lia.
Qed.

Lemma nonempty_take_ge n s :
  (1 <= n <= String.length s)%nat -> nonempty (Str.take n s) = true.
Proof. destruct n, s; simpl; try lia; reflexivity. Qed.

Lemma species_pattern_some s gs :
  Re.match_items Re.species_pattern s = Some gs ->
  exists w d, gs = [w; d] /\ species_prefix s w d.
Proof.
  unfold Re.species_pattern.
  change (Re.backtrack
            (Re.match_items
               [ {| Re.cls := Str.isspace; Re.least := 0; Re.captured := false |};
                 {| Re.cls := Str.isdigit; Re.least := 1; Re.captured := true |} ])
            {| Re.cls := Str.isword; Re.least := 1; Re.captured := true |}
            s (Str.run Str.isword s) = Some gs -> exists w d, gs = [w; d] /\ species_prefix s w d).
  intros (kw & gs1 & Hkw & H1 & ->)%backtrack_some.
  change (Re.backtrack
            (Re.match_items
               [ {| Re.cls := Str.isdigit; Re.least := 1; Re.captured := true |} ])
            {| Re.cls := Str.isspace; Re.least := 0; Re.captured := false |}
            (Str.drop kw s) (Str.run Str.isspace (Str.drop kw s)) = Some gs1) in H1.
  apply backtrack_some in H1 as (ks & gs2 & Hks & H2 & ->).
  rewrite match_digits in H2. simpl in Hkw, Hks.
  set (t := Str.drop ks (Str.drop kw s)) in *.
  destruct (1 <=? Str.run Str.isdigit t)%nat eqn:E; [|discriminate].
  apply Nat.leb_le in E. injection H2 as <-.
  exists (Str.take kw s), (Str.take (Str.run Str.isdigit t) t).
  split; [reflexivity|].
  exists (Str.take ks (Str.drop kw s)), (Str.drop (Str.run Str.isdigit t) t).
  split; [|repeat split].
  - unfold t. rewrite !take_drop. reflexivity.
  - apply nonempty_take_ge. pose proof (run_le_length Str.isword s). lia.
  - apply forallb_take_run. lia.
  - apply forallb_take_run. lia.
  - apply nonempty_take_ge. pose proof (run_le_length Str.isdigit t). lia.
  - apply forallb_take_run. lia.
Qed.

Lemma species_pattern_complete s w d :
  species_prefix s w d -> Re.match_items Re.species_pattern s <> None.
Proof.
  intros (sp & rest & -> & Hw & Hww & Hsp & Hd & Hdd).
  unfold Re.species_pattern. simpl Re.match_items.
  apply backtrack_complete with (j := String.length w).
  - simpl. rewrite run_app by assumption.
    apply nonempty_length in Hw. lia.
  - rewrite drop_app_length.
    apply backtrack_complete with (j := String.length sp).
    + simpl. rewrite run_app by assumption. lia.
    + rewrite drop_app_length.
      pose proof (match_digits (d +:+ rest)) as Hm. simpl Re.match_items in Hm.
      rewrite Hm, run_app by assumption. clear Hm.
      apply nonempty_length in Hd.
      destruct (1 <=? _)%nat eqn:E; [intros [=]|].
      apply Nat.leb_gt in E. lia.
Qed.

(** No digit, no match. *)
Lemma species_pattern_no_digit s :
  Str.forallb (fun c => negb (Str.isdigit c)) s = true ->
  Re.match_items Re.species_pattern s = None.
Proof.
  intros Hs. destruct (Re.match_items Re.species_pattern s) as [gs|] eqn:H;
    [exfalso|reflexivity].
  apply species_pattern_some in H
    as (w & d & _ & sp & rest & -> & _ & _ & _ & Hd & Hdd).
  rewrite !forallb_app in Hs.
  apply andb_true_iff in Hs as [_ Hs]. apply andb_true_iff in Hs as [_ Hs].
  apply andb_true_iff in Hs as [Hs _].
  destruct d as [|c r]; [discriminate|]. simpl in Hs, Hdd.
  apply andb_true_iff in Hs as [Hc _]. apply andb_true_iff in Hdd as [Hc' _].
  rewrite Hc' in Hc. discriminate.
Qed.

(** A symbol, one blank and a run of digits: the two groups are the symbol
    and the digits. *)
Lemma species_pattern_symbol_digits w d :
  nonempty w = true -> Str.forallb Str.isword w = true ->
  nonempty d = true -> Str.forallb Str.isdigit d = true ->
  Re.match_items Re.species_pattern (w +:+ " " +:+ d) = Some [w; d].
Proof.
  intros Hw Hww Hd Hdd.
  assert (Hrun_d : Str.run Str.isdigit d = String.length d) by (apply run_all; assumption).
  assert (Hsp : Str.run Str.isspace d = O).
  { apply run_none. eapply forallb_impl; [|exact Hdd].
    intros c Hc. rewrite (digit_not_space c Hc). reflexivity. }
  unfold Re.species_pattern. simpl Re.match_items.
  assert (Hrun_w : Str.run Str.isword (w +:+ " " +:+ d) = String.length w).
  { rewrite run_app by assumption. simpl. lia. }
  rewrite Hrun_w.
  erewrite backtrack_first; [unfold Re.with_group; simpl Re.captured;
                             rewrite take_app_length; reflexivity| |].
  - simpl. apply nonempty_length. assumption.
  - rewrite drop_app_length.
    change (" " +:+ d) with (String " " d). simpl Str.run. rewrite Hsp.
    erewrite backtrack_first; [unfold Re.with_group; simpl Re.captured; reflexivity| |].
    + simpl. lia.
    + simpl Str.drop.
      pose proof (match_digits d) as Hm. simpl Re.match_items in Hm.
      rewrite Hm, Hrun_d, take_all. clear Hm.
      apply nonempty_length in Hd.
      destruct (1 <=? _)%nat eqn:E; [reflexivity|]. apply Nat.leb_gt in E. lia.
Qed.

(** ** Splitting on whitespace *)

Lemma is_token_cons c r :
  is_token (String c r) = true <->
  Str.isspace c = false /\ Str.forallb (fun c => negb (Str.isspace c)) r = true.
Proof.
  unfold is_token. simpl. rewrite andb_true_iff, negb_true_iff. tauto.
Qed.

Lemma split_tokens s : Forall (fun t => is_token t = true) (Str.split s).
Proof.
  induction s as [|c r IH]; simpl; [constructor|].
  destruct (Str.isspace c) eqn:Hc; [exact IH|].
  assert (Hone : is_token (String c EmptyString) = true)
    by (apply is_token_cons; auto).
  destruct r as [|c' r']; [repeat constructor; exact Hone|].
  destruct (Str.isspace c') eqn:Hc'; [constructor; [exact Hone|exact IH]|].
  destruct (Str.split (String c' r')) as [|t ts]; [repeat constructor; exact Hone|].
  inversion IH as [|? ? Ht Hts]; subst. constructor; [|exact Hts].
  destruct t as [|x t']; [discriminate|].
  apply is_token_cons in Ht as [Hx Ht]. apply is_token_cons. simpl.
  rewrite Hx, Ht. auto.
Qed.

Lemma split_token_space a c r :
  is_token a = true -> Str.isspace c = true ->
  Str.split (a +:+ String c r) = a :: Str.split r.
Proof.
  intros Ha Hc. induction a as [|x a' IH]; [discriminate|].
  apply is_token_cons in Ha as [Hx Ha'].
  rewrite append_cons.
  destruct a' as [|y a''].
  - change (EmptyString +:+ String c r) with (String c r).
    simpl. rewrite Hx, Hc. reflexivity.
  - assert (Hy : is_token (String y a'') = true).
    { unfold is_token. simpl in *. exact Ha'. }
    specialize (IH Hy). rewrite append_cons in IH |- *.
    pose proof Hy as [Hy' _]%is_token_cons.
    change (Str.split (String x (String y (a'' +:+ String c r))))
      with (if Str.isspace x then Str.split (String y (a'' +:+ String c r))
            else if Str.isspace y
                 then String x EmptyString :: Str.split (String y (a'' +:+ String c r))
                 else match Str.split (String y (a'' +:+ String c r)) with
                      | t :: ts => String x t :: ts
                      | [] => [String x EmptyString]
                      end).
    rewrite Hx, Hy', IH. reflexivity.
Qed.

Lemma split_token a : is_token a = true -> Str.split a = [a].
Proof.
  induction a as [|x a' IH]; [discriminate|].
  intros [Hx Ha']%is_token_cons.
  destruct a' as [|y a'']; [simpl; rewrite Hx; reflexivity|].
  assert (Hy : is_token (String y a'') = true).
  { unfold is_token. simpl in *. exact Ha'. }
  specialize (IH Hy). pose proof Hy as [Hy' _]%is_token_cons.
  change (Str.split (String x (String y a'')))
    with (if Str.isspace x then Str.split (String y a'')
          else if Str.isspace y
               then String x EmptyString :: Str.split (String y a'')
               else match Str.split (String y a'') with
                    | t :: ts => String x t :: ts
                    | [] => [String x EmptyString]
                    end).
  rewrite Hx, Hy', IH. reflexivity.
Qed.

Lemma split_two a b :
  is_token a = true -> is_token b = true ->
  Str.split (a +:+ " " +:+ b) = [a; b].
Proof.
  intros Ha Hb. change (" " +:+ b) with (String " " b).
  rewrite split_token_space by auto. rewrite split_token by assumption.
  reflexivity.
Qed.

Lemma token_of p s :
  (forall c, p c = true -> Str.isspace c = false) ->
  nonempty s = true -> Str.forallb p s = true -> is_token s = true.
Proof.
  intros Hp Hne Hs. unfold is_token. rewrite Hne. simpl.
  eapply forallb_impl; [|exact Hs].
  intros c Hc. rewrite (Hp c Hc). reflexivity.
Qed.

(** ** [int] and ['%d'] *)

Lemma lstrip_token s :
  Str.forallb (fun c => negb (Str.isspace c)) s = true -> Str.lstrip s = s.
Proof.
  destruct s as [|c r]; simpl; [reflexivity|].
  intros [Hc _]%andb_true_iff. apply negb_true_iff in Hc. rewrite Hc. reflexivity.
Qed.

Lemma rstrip_token s :
  Str.forallb (fun c => negb (Str.isspace c)) s = true -> Str.rstrip s = s.
Proof.
  induction s as [|c r IH]; simpl; [reflexivity|].
  intros [Hc Hr]%andb_true_iff. apply negb_true_iff in Hc.
  rewrite (IH Hr), Hc. destruct r; reflexivity.
Qed.

Lemma strip_token s :
  Str.forallb (fun c => negb (Str.isspace c)) s = true -> Str.strip s = s.
Proof.
  intros H. unfold Str.strip. rewrite lstrip_token by assumption.
  apply rstrip_token, H.
Qed.

Lemma digits_of_uint d : Str.forallb Str.isdigit (NilEmpty.string_of_uint d) = true.
Proof. induction d; simpl; auto. Qed.

Lemma digit_not_sign c :
  Str.isdigit c = true -> Ascii.eqb c "-" = false /\ Ascii.eqb c "+" = false.
Proof. by_cases_on_char c. Qed.

(** [int] reads a run of digits as the number they denote. *)
Lemma python_int_digits d :
  d <> Decimal.Nil ->
  python_int (NilEmpty.string_of_uint d) = Return (Z.of_uint d).
Proof.
  intros Hd. unfold python_int.
  pose proof (digits_of_uint d) as Hdig.
  rewrite strip_token
    by (eapply forallb_impl; [|exact Hdig];
        intros c Hc; rewrite (digit_not_space c Hc); reflexivity).
  pose proof (NilZero.usu d Hd) as Husu.
  assert (Hs : NilZero.string_of_uint d = NilEmpty.string_of_uint d)
    by (destruct d; [contradiction|reflexivity..]).
  rewrite Hs in Husu.
  destruct (NilEmpty.string_of_uint d) as [|c r] eqn:E.
  - destruct d; simpl in E; congruence.
  - simpl in Hdig. apply andb_true_iff in Hdig as [Hc _].
    destruct (digit_not_sign c Hc) as [-> ->]. rewrite Husu. reflexivity.
Qed.

Lemma to_int_nonneg i :
  0 <= i -> exists d, Z.to_int i = Decimal.Pos d /\ d <> Decimal.Nil
                      /\ Z.of_uint d = i.
Proof.
  intros Hi. pose proof (DecimalZ.of_to i) as Hoi.
  destruct i as [|p|p]; [| |lia].
  - exists (Decimal.D0 Decimal.Nil). repeat split. discriminate.
  - exists (Pos.to_uint p). repeat split; [|exact Hoi].
    intros Hnil. simpl in Hoi. rewrite Hnil in Hoi. discriminate.
Qed.

Lemma format_d_nonneg i :
  0 <= i ->
  nonempty (format_d i) = true
  /\ Str.forallb Str.isdigit (format_d i) = true
  /\ python_int (format_d i) = Return i.
Proof.
  intros Hi. destruct (to_int_nonneg i Hi) as (d & Hto & Hd & Hof).
  unfold format_d. rewrite Hto. simpl NilZero.string_of_int.
  assert (Hs : NilZero.string_of_uint d = NilEmpty.string_of_uint d)
    by (destruct d; [contradiction|reflexivity..]).
  rewrite Hs. repeat split.
  - destruct d; [contradiction|reflexivity..].
  - apply digits_of_uint.
  - rewrite python_int_digits by assumption. rewrite Hof. reflexivity.
Qed.

(** A run of digits is not a roman numeral. *)
Lemma roman_to_int_digits d :
  nonempty d = true -> Str.forallb Str.isdigit d = true ->
  roman_to_int d = Raise (ValueError (NotRomanNumeral d)).
Proof.
  intros Hne Hd. unfold roman_to_int.
  rewrite (upper_idem_on Str.isdigit) by (auto using digit_upper).
  fold is_numeral.
  assert (Hn : Str.forallb is_numeral d = false).
  { destruct d as [|c r]; [discriminate|].
    change (is_numeral c && Str.forallb is_numeral r = false).
    simpl in Hd. apply andb_true_iff in Hd as [Hc _].
    rewrite (digit_not_numeral c Hc). reflexivity. }
  rewrite Hn. reflexivity.
Qed.

(** [int] raises nothing but [ValueError]. *)
Lemma python_int_raises s e : python_int s = Raise e -> is_ValueError e = true.
Proof.
  unfold python_int.
  destruct (Str.strip s) as [|c r]; simpl.
  - intros [= <-]. reflexivity.
  - destruct (Ascii.eqb c "-"); [|destruct (Ascii.eqb c "+")];
      match goal with |- context [NilZero.uint_of_string ?x] =>
        destruct (NilZero.uint_of_string x) end;
      intros [= <-]; reflexivity.
Qed.

(** ** The registry *)

Lemma lower_fixes_lower s :
  Str.forallb (Str.in_range 97 122) s = true -> Str.lower s = s.
Proof.
  induction s as [|c r IH]; [reflexivity|]. simpl.
  intros [Hc Hr]%andb_true_iff. unfold Str.lower in *. simpl.
  rewrite (lower_char_fixes_lower c Hc), (IH Hr). reflexivity.
Qed.

Lemma reformat_canonical symbol :
  canonical_symbol symbol = true ->
  reformat_element_symbol symbol = Return symbol.
Proof.
  destruct symbol as [|c r]; [discriminate|]. simpl.
  intros [Hc Hr]%andb_true_iff. unfold reformat_element_symbol. simpl.
  rewrite (upper_char_fixes_upper c Hc), (lower_fixes_lower r Hr). reflexivity.
Qed.

Lemma canonical_symbol_word symbol :
  canonical_symbol symbol = true ->
  nonempty symbol = true
  /\ Str.forallb Str.isalpha symbol = true.
Proof.
  destruct symbol as [|c r]; [discriminate|]. simpl.
  intros [Hc Hr]%andb_true_iff. split; [reflexivity|].
  rewrite (upper_is_alpha c Hc). simpl.
  eapply forallb_impl; [|exact Hr]. apply lower_is_alpha.
Qed.

Lemma element_symbol2atomic_number_canonical data symbol n :
  canonical_symbol symbol = true ->
  symbol2atomic_number data !! symbol = Some n ->
  element_symbol2atomic_number data symbol = Return n.
Proof.
  intros Hc Hl. unfold element_symbol2atomic_number.
  rewrite (reformat_canonical symbol Hc), bind_Return, Hl. reflexivity.
Qed.

(** ** The steps of the species parser *)

Lemma species_fields_pattern s w d :
  Re.match_items Re.species_pattern s = Some [w; d] ->
  species_fields s = Return (w, d).
Proof.
  intros H. unfold species_fields, Re.match_groups. rewrite H. reflexivity.
Qed.

Lemma species_fields_split s a b :
  Re.match_items Re.species_pattern s = None ->
  Str.split s = [a; b] ->
  species_fields s = Return (a, b).
Proof.
  intros H Hs. unfold species_fields, Re.match_groups. rewrite H, Hs. reflexivity.
Qed.

Lemma species_fields_malformed s :
  Re.match_items Re.species_pattern s = None ->
  length (Str.split s) <> 2%nat ->
  species_fields s = Raise (MalformedSpeciesError (NotOfFormat s)).
Proof.
  intros H Hs. unfold species_fields, Re.match_groups. rewrite H.
  rewrite bind_Raise. simpl.
  destruct (Str.split s) as [|a [|b [|c l]]]; simpl in *; try reflexivity.
  contradiction.
Qed.

(** The field-splitting step either returns two fields or raises
    [MalformedSpeciesError]; it returns exactly on the inputs the pattern
    matches and on those made of two tokens. *)
Lemma species_fields_cases s :
  (exists w d, species_prefix s w d /\ species_fields s = Return (w, d))
  \/ (Re.match_items Re.species_pattern s = None /\
      exists a b, Str.split s = [a; b] /\ species_fields s = Return (a, b))
  \/ (Re.match_items Re.species_pattern s = None /\
      length (Str.split s) <> 2%nat /\
      species_fields s = Raise (MalformedSpeciesError (NotOfFormat s))).
Proof.
  destruct (Re.match_items Re.species_pattern s) as [gs|] eqn:H.
  - left. destruct (species_pattern_some s gs H) as (w & d & -> & Hp).
    exists w, d. split; [exact Hp|]. apply species_fields_pattern, H.
  - right. destruct (Nat.eq_dec (length (Str.split s)) 2%nat) as [E|E].
    + left. split; [reflexivity|].
      destruct (Str.split s) as [|a [|b [|c l]]] eqn:Hs; try discriminate.
      exists a, b. split; [reflexivity|]. apply species_fields_split; assumption.
    + right. split; [reflexivity|]. split; [exact E|].
      apply species_fields_malformed; assumption.
Qed.

Lemma species_ion_number_roman tok n :
  roman_to_int tok = Return n -> species_ion_number tok = Return n.
Proof. intros H. unfold species_ion_number. rewrite H. reflexivity. Qed.

Lemma species_ion_number_int tok e n :
  roman_to_int tok = Raise e -> python_int tok = Return n ->
  species_ion_number tok = Return n.
Proof.
  intros Hr Hi. unfold species_ion_number. rewrite Hr, Hi. simpl.
  rewrite (roman_to_int_raises _ _ Hr). reflexivity.
Qed.

Lemma species_ion_number_unreadable tok e e' :
  roman_to_int tok = Raise e -> python_int tok = Raise e' ->
  species_ion_number tok
  = Raise (MalformedSpeciesError (IonNumberNotParsed tok)).
Proof.
  intros Hr Hi. unfold species_ion_number. rewrite Hr, Hi. simpl.
  rewrite (roman_to_int_raises _ _ Hr), (python_int_raises _ _ Hi). reflexivity.
Qed.

Lemma species_string_to_tuple_steps data s symbol tok n stage :
  species_fields s = Return (symbol, tok) ->
  element_symbol2atomic_number data symbol = Return n ->
  species_ion_number tok = Return stage ->
  species_string_to_tuple data s
  = if stage >? n then Raise (ValueError SpeciesDoesNotExist)
    else Return (n, stage - 1).
Proof.
  intros Hf He Hi. unfold species_string_to_tuple.
  rewrite Hf, bind_Return, He, bind_Return, Hi, bind_Return. reflexivity.
Qed.

(** ** Formatting and parsing back *)

Lemma species_tuple_to_string_roman data n symbol ion_number :
  atomic_number2symbol data !! n = Some symbol ->
  species_tuple_to_string data (n, ion_number) true
  = (r ← int_to_roman (ion_number + 1); Return (symbol +:+ " " +:+ r)).
Proof.
  intros H. unfold species_tuple_to_string, atomic_number2element_symbol.
  rewrite H. reflexivity.
Qed.

Lemma species_tuple_to_string_decimal data n symbol ion_number :
  atomic_number2symbol data !! n = Some symbol ->
  species_tuple_to_string data (n, ion_number) false
  = Return (symbol +:+ " " +:+ format_d ion_number).
Proof.
  intros H. unfold species_tuple_to_string, atomic_number2element_symbol.
  rewrite H. reflexivity.
Qed.

(** Parsing a canonical symbol, a blank and the numeral of [stage]. *)
Lemma parse_symbol_roman data n symbol stage :
  symbol2atomic_number data !! symbol = Some n ->
  canonical_symbol symbol = true ->
  1 <= stage <= 3999 ->
  species_string_to_tuple data (symbol +:+ " " +:+ canonical_roman stage)
  = if stage >? n then Raise (ValueError SpeciesDoesNotExist)
    else Return (n, stage - 1).
Proof.
  intros Hl Hc Hs.
  destruct (roman_codec_sound stage Hs) as (_ & Hdec & Hne & Hnum).
  destruct (canonical_symbol_word symbol Hc) as [Hsne Halpha].
  apply species_string_to_tuple_steps
    with (symbol := symbol) (tok := canonical_roman stage).
  - apply species_fields_split.
    + apply species_pattern_no_digit. rewrite forallb_app. apply andb_true_iff.
      split.
      * eapply forallb_impl; [|exact Halpha].
        intros c Ha. rewrite (alpha_not_digit c Ha). reflexivity.
      * change (" " +:+ canonical_roman stage)
          with (String " " (canonical_roman stage)).
        simpl. eapply forallb_impl; [|exact Hnum].
        intros c Ha. rewrite (numeral_not_digit c Ha). reflexivity.
    + apply split_two.
      * apply (token_of Str.isalpha); auto using alpha_not_space.
      * apply (token_of is_numeral); auto using numeral_not_space.
  - apply element_symbol2atomic_number_canonical; assumption.
  - apply species_ion_number_roman, Hdec.
Qed.

(** Parsing a canonical symbol, a blank and the decimal digits of [k]. *)
Lemma parse_symbol_decimal data n symbol k :
  symbol2atomic_number data !! symbol = Some n ->
  canonical_symbol symbol = true ->
  0 <= k ->
  species_string_to_tuple data (symbol +:+ " " +:+ format_d k)
  = if k >? n then Raise (ValueError SpeciesDoesNotExist)
    else Return (n, k - 1).
Proof.
  intros Hl Hc Hk.
  destruct (format_d_nonneg k Hk) as (Hne & Hdig & Hint).
  destruct (canonical_symbol_word symbol Hc) as [Hsne Halpha].
  apply species_string_to_tuple_steps
    with (symbol := symbol) (tok := format_d k).
  - apply species_fields_pattern, species_pattern_symbol_digits; auto.
    eapply forallb_impl; [|exact Halpha]. apply alpha_is_word.
  - apply element_symbol2atomic_number_canonical; assumption.
  - eapply species_ion_number_int; [|exact Hint].
    apply roman_to_int_digits; assumption.
Qed.

(** C1, on the code -- species round trip: for a registered element
    [n <= 118] with a canonical symbol that the registry maps back to [n],
    and [0 <= ion_number < n], the roman form parses back to
    [(n, ion_number)]; the decimal form is written with [ion_number] itself
    and read back as a 1-based stage, so it parses to
    [(n, ion_number - 1)], not to the pair that was formatted. *)
Theorem species_round_trip data n symbol ion_number :
  atomic_number2symbol data !! n = Some symbol ->
  symbol2atomic_number data !! symbol = Some n ->
  canonical_symbol symbol = true ->
  n <= 118 ->
  0 <= ion_number < n ->
  (exists s, species_tuple_to_string data (n, ion_number) true = Return s
             /\ species_string_to_tuple data s = Return (n, ion_number))
  /\ (exists s, species_tuple_to_string data (n, ion_number) false = Return s
                /\ species_string_to_tuple data s = Return (n, ion_number - 1)
                /\ species_string_to_tuple data s <> Return (n, ion_number)).
Proof.
  intros Hn Hs Hc Hmax Hi. split.
  - exists (symbol +:+ " " +:+ canonical_roman (ion_number + 1)). split.
    + rewrite (species_tuple_to_string_roman _ _ _ _ Hn).
      destruct (roman_codec_sound (ion_number + 1)) as (-> & _); [lia|].
      reflexivity.
    + rewrite (parse_symbol_roman data n) by (auto; lia).
      destruct (ion_number + 1 >? n) eqn:E; [apply Z.gtb_lt in E; lia|].
      f_equal. f_equal. lia.
  - exists (symbol +:+ " " +:+ format_d ion_number).
    split; [apply species_tuple_to_string_decimal, Hn|].
    rewrite (parse_symbol_decimal data n) by (auto; lia).
    destruct (ion_number >? n) eqn:E; [apply Z.gtb_lt in E; lia|].
    split; [reflexivity|]. intros [= H]. lia.
Qed.

Lemma species_round_trip_Si_II :
  (exists s, species_tuple_to_string atomic_symbols_sample (14, 1) true = Return s
             /\ species_string_to_tuple atomic_symbols_sample s = Return (14, 1))
  /\ (exists s, species_tuple_to_string atomic_symbols_sample (14, 1) false = Return s
                /\ species_string_to_tuple atomic_symbols_sample s = Return (14, 1 - 1)
                /\ species_string_to_tuple atomic_symbols_sample s <> Return (14, 1)).
Proof.
  apply (species_round_trip atomic_symbols_sample 14 "Si" 1);
    [vm_compute; reflexivity | vm_compute; reflexivity | reflexivity | lia | lia].
Defined.

(** ** The formatter *)

Lemma to_int_not_nil i :
  Z.to_int i <> Decimal.Pos Decimal.Nil /\ Z.to_int i <> Decimal.Neg Decimal.Nil.
Proof.
  pose proof (DecimalZ.of_to i) as H.
  split; intros E; rewrite E in H; simpl in H; subst i; discriminate.
Qed.

Lemma format_d_inj a b : format_d a = format_d b -> a = b.
Proof.
  unfold format_d. intros H. apply DecimalZ.to_int_inj.
  destruct (to_int_not_nil a) as [Ha1 Ha2], (to_int_not_nil b) as [Hb1 Hb2].
  pose proof (NilZero.isi _ Ha1 Ha2) as Ea.
  pose proof (NilZero.isi _ Hb1 Hb2) as Eb.
  rewrite H in Ea. congruence.
Qed.

Lemma append_inj_l a x y : a +:+ x = a +:+ y -> x = y.
Proof.
  induction a as [|c r IH]; [auto|]. rewrite !append_cons. intros [= H]. auto.
Qed.

(** C3, on the code -- the rendering of the ionization stage: with
    [roman_numerals] the stage [ion_number + 1] is written as a numeral
    ("Si II" for [(14, 1)]); without, the decimal digits written are those
    of [ion_number] itself, not of [ion_number + 1] ("Si 1" for
    [(14, 1)]). *)
Theorem species_tuple_to_string_stage data n symbol ion_number :
  atomic_number2symbol data !! n = Some symbol ->
  species_tuple_to_string data (n, ion_number) false
    = Return (symbol +:+ " " +:+ format_d ion_number)
  /\ species_tuple_to_string data (n, ion_number) false
     <> Return (symbol +:+ " " +:+ format_d (ion_number + 1))
  /\ (1 <= ion_number + 1 <= 3999 ->
      species_tuple_to_string data (n, ion_number) true
      = Return (symbol +:+ " " +:+ canonical_roman (ion_number + 1))).
Proof.
  intros Hn. rewrite (species_tuple_to_string_decimal _ _ _ _ Hn).
  split; [reflexivity|]. split.
  - intros [= H]. apply append_inj_l in H.
    change (" " +:+ format_d ion_number) with (String " " (format_d ion_number)) in H.
    change (" " +:+ format_d (ion_number + 1))
      with (String " " (format_d (ion_number + 1))) in H.
    injection H as H. apply format_d_inj in H. lia.
  - intros Hr. rewrite (species_tuple_to_string_roman _ _ _ _ Hn).
    destruct (roman_codec_sound _ Hr) as (-> & _). reflexivity.
Qed.

Lemma species_tuple_to_string_Si_1 :
  species_tuple_to_string atomic_symbols_sample (14, 1) false = Return "Si 1"
  /\ species_tuple_to_string atomic_symbols_sample (14, 1) false <> Return "Si 2"
  /\ (1 <= 1 + 1 <= 3999 ->
      species_tuple_to_string atomic_symbols_sample (14, 1) true = Return "Si II").
Proof.
  apply (species_tuple_to_string_stage atomic_symbols_sample 14 "Si" 1).
  vm_compute. reflexivity.
Defined.

(** C10 -- the formatter does not validate the ionization range: for a
    registered atomic number it returns a string for every [ion_number] in
    decimal form, and for every [ion_number] with
    [1 <= ion_number + 1 <= 3999] in roman form, whatever the relation of
    [ion_number] to the atomic number; it never raises the parser's
    "Species given does not exist" error. *)
Theorem species_tuple_to_string_no_range_check data n symbol ion_number :
  atomic_number2symbol data !! n = Some symbol ->
  (exists s, species_tuple_to_string data (n, ion_number) false = Return s)
  /\ (1 <= ion_number + 1 <= 3999 ->
      exists s, species_tuple_to_string data (n, ion_number) true = Return s)
  /\ (forall roman_numerals,
        species_tuple_to_string data (n, ion_number) roman_numerals
        <> Raise (ValueError SpeciesDoesNotExist)).
Proof.
  intros Hn. split; [|split].
  - rewrite (species_tuple_to_string_decimal _ _ _ _ Hn). eauto.
  - intros Hr. rewrite (species_tuple_to_string_roman _ _ _ _ Hn).
    destruct (roman_codec_sound _ Hr) as (-> & _). rewrite bind_Return. eauto.
  - intros [|].
    + rewrite (species_tuple_to_string_roman _ _ _ _ Hn).
      destruct (int_to_roman (ion_number + 1)) as [r|e] eqn:E.
      * rewrite bind_Return. discriminate.
      * apply int_to_roman_raises in E as [-> _]. rewrite bind_Raise. discriminate.
    + rewrite (species_tuple_to_string_decimal _ _ _ _ Hn). discriminate.
Qed.

Lemma species_tuple_to_string_Si_beyond :
  (exists s, species_tuple_to_string atomic_symbols_sample (14, 20) false = Return s)
  /\ (1 <= 20 + 1 <= 3999 ->
      exists s, species_tuple_to_string atomic_symbols_sample (14, 20) true = Return s)
  /\ (forall roman_numerals,
        species_tuple_to_string atomic_symbols_sample (14, 20) roman_numerals
        <> Raise (ValueError SpeciesDoesNotExist)).
Proof.
  apply (species_tuple_to_string_no_range_check atomic_symbols_sample 14 "Si" 20).
  vm_compute. reflexivity.
Defined.

(** ** Symbol lookup *)

(** C9 -- the empty string escapes the declared errors of the lookup:
    [reformat_element_symbol] indexes the first character unguarded, so
    [element_symbol2atomic_number ""] raises [IndexError], not
    [MalformedElementSymbolError]; on every non-empty string the index is
    in bounds, the reformatting returns, and the lookup returns a number or
    raises [MalformedElementSymbolError]. *)
Theorem element_symbol2atomic_number_empty data :
  element_symbol2atomic_number data "" = Raise IndexError
  /\ forall s,
       s <> EmptyString ->
       (exists c, str_get s 0 = Return c)
       /\ (exists r, reformat_element_symbol s = Return r)
       /\ ((exists n, element_symbol2atomic_number data s = Return n)
           \/ element_symbol2atomic_number data s
              = Raise (MalformedElementSymbolError s)).
Proof.
  split; [reflexivity|]. intros [|c r] Hs; [contradiction|].
  split; [exists c; reflexivity|]. split; [eexists; reflexivity|].
  unfold element_symbol2atomic_number, reformat_element_symbol.
  change (str_get (String c r) 0) with (Return c). rewrite !bind_Return.
  destruct (symbol2atomic_number data !! _) as [n|]; eauto.
Qed.

Lemma element_symbol2atomic_number_raises data s e :
  element_symbol2atomic_number data s = Raise e ->
  e = IndexError \/ e = MalformedElementSymbolError s.
Proof.
  unfold element_symbol2atomic_number, reformat_element_symbol, str_get.
  destruct (String.get 0 s) as [c|].
  - rewrite !bind_Return. destruct (symbol2atomic_number data !! _).
    + discriminate.
    + intros [= <-]. auto.
  - rewrite !bind_Raise. intros [= <-]. auto.
Qed.

(** ** The ionization token *)

(** The token is read as a roman numeral first and as an integer only when
    that fails; when both fail the error is [MalformedSpeciesError]. *)
Lemma species_ion_number_order tok :
  species_ion_number tok =
    match roman_to_int tok with
    | Return n => Return n
    | Raise _ =>
        match python_int tok with
        | Return n => Return n
        | Raise _ => Raise (MalformedSpeciesError (IonNumberNotParsed tok))
        end
    end.
Proof.
  destruct (roman_to_int tok) as [n|e] eqn:Hr.
  - apply species_ion_number_roman, Hr.
  - destruct (python_int tok) as [n|e'] eqn:Hi.
    + eapply species_ion_number_int; eauto.
    + eapply species_ion_number_unreadable; eauto.
Qed.

Lemma species_ion_number_cases tok :
  (exists stage, species_ion_number tok = Return stage)
  \/ species_ion_number tok
     = Raise (MalformedSpeciesError (IonNumberNotParsed tok)).
Proof.
  rewrite species_ion_number_order.
  destruct (roman_to_int tok); [eauto|]. destruct (python_int tok); eauto.
Qed.

(** Every way through [species_string_to_tuple]. *)
Lemma species_string_to_tuple_cases data s :
  (species_fields s = Raise (MalformedSpeciesError (NotOfFormat s))
   /\ species_string_to_tuple data s
      = Raise (MalformedSpeciesError (NotOfFormat s)))
  \/ exists symbol tok,
       species_fields s = Return (symbol, tok) /\
       ((exists e, element_symbol2atomic_number data symbol = Raise e
                   /\ (e = IndexError \/ e = MalformedElementSymbolError symbol)
                   /\ species_string_to_tuple data s = Raise e)
        \/ exists n,
             element_symbol2atomic_number data symbol = Return n /\
             ((species_ion_number tok
               = Raise (MalformedSpeciesError (IonNumberNotParsed tok))
               /\ species_string_to_tuple data s
                  = Raise (MalformedSpeciesError (IonNumberNotParsed tok)))
              \/ exists stage,
                   species_ion_number tok = Return stage
                   /\ species_string_to_tuple data s
                      = if stage >? n
                        then Raise (ValueError SpeciesDoesNotExist)
                        else Return (n, stage - 1))).
Proof.
  destruct (species_fields_cases s)
    as [(w & d & _ & Hf)|[(_ & a & b & _ & Hf)|(_ & _ & Hf)]].
  3: { left. split; [exact Hf|]. unfold species_string_to_tuple.
       rewrite Hf. reflexivity. }
  all: right; eexists _, _; split; [exact Hf|].
  all: unfold species_string_to_tuple; rewrite Hf, bind_Return.
  all: match goal with |- context [element_symbol2atomic_number ?t ?x] =>
         destruct (element_symbol2atomic_number t x) as [n|e] eqn:He end.
  2, 4: left; exists e; split; [reflexivity|]; split;
        [eapply element_symbol2atomic_number_raises; eauto | reflexivity].
  all: right; exists n; split; [reflexivity|]; rewrite bind_Return.
  all: match goal with |- context [species_ion_number ?x] =>
         destruct (species_ion_number_cases x) as [[stage Hi]|Hi]; rewrite Hi;
         [right; exists stage; split; reflexivity | left; split; reflexivity]
       end.
Qed.

(** C8 -- the three notations: "Si 2", "Si II" and "Si2" all parse to
    [(14, 1)] (silicon being 14 in the registry); the ionization token is
    read as a roman numeral first and as a plain integer when that fails,
    so "2" is read by [int] and "II" by [roman_to_int]; a token that is
    neither makes the parser raise [MalformedSpeciesError]. *)
Theorem species_notations data :
  symbol2atomic_number data !! "Si" = Some 14 ->
  species_string_to_tuple data "Si 2" = Return (14, 1)
  /\ species_string_to_tuple data "Si II" = Return (14, 1)
  /\ species_string_to_tuple data "Si2" = Return (14, 1)
  /\ (forall tok,
        species_ion_number tok =
          match roman_to_int tok with
          | Return n => Return n
          | Raise _ =>
              match python_int tok with
              | Return n => Return n
              | Raise _ => Raise (MalformedSpeciesError (IonNumberNotParsed tok))
              end
          end)
  /\ (roman_to_int "2" = Raise (ValueError (NotRomanNumeral "2"))
      /\ python_int "2" = Return 2)
  /\ roman_to_int "II" = Return 2
  /\ (forall s symbol tok n e e',
        species_fields s = Return (symbol, tok) ->
        element_symbol2atomic_number data symbol = Return n ->
        roman_to_int tok = Raise e ->
        python_int tok = Raise e' ->
        species_string_to_tuple data s
        = Raise (MalformedSpeciesError (IonNumberNotParsed tok))).
Proof.
  intros HSi.
  assert (Hel : element_symbol2atomic_number data "Si" = Return 14)
    by (apply element_symbol2atomic_number_canonical; [reflexivity|exact HSi]).
  repeat split.
  - rewrite (species_string_to_tuple_steps data "Si 2" "Si" "2" 14 2);
      [reflexivity|vm_compute; reflexivity|exact Hel|vm_compute; reflexivity].
  - rewrite (species_string_to_tuple_steps data "Si II" "Si" "II" 14 2);
      [reflexivity|vm_compute; reflexivity|exact Hel|vm_compute; reflexivity].
  - rewrite (species_string_to_tuple_steps data "Si2" "Si" "2" 14 2);
      [reflexivity|vm_compute; reflexivity|exact Hel|vm_compute; reflexivity].
  - apply species_ion_number_order.
  - intros s symbol tok n e e' Hf He Hr Hi. unfold species_string_to_tuple.
    rewrite Hf, bind_Return, He, bind_Return.
    rewrite (species_ion_number_unreadable _ _ _ Hr Hi). reflexivity.
Qed.

Lemma species_notations_sample :
  species_string_to_tuple atomic_symbols_sample "Si 2" = Return (14, 1)
  /\ species_string_to_tuple atomic_symbols_sample "Si II" = Return (14, 1)
  /\ species_string_to_tuple atomic_symbols_sample "Si2" = Return (14, 1).
Proof.
  pose proof (species_notations atomic_symbols_sample) as H.
  destruct H as (H1 & H2 & H3 & _); [vm_compute; reflexivity|].
  exact (conj H1 (conj H2 H3)).
Defined.

(** ** The range check of the parser *)

(** C4, as the code has it -- the ionization bound: once the symbol
    resolves to [n] and the token to the stage [stage], the parser raises
    "Species given does not exist" if and only if [stage > n], and returns
    [(n, stage - 1)] otherwise; there is no lower bound, so a stage below 1
    is returned as a negative ion number. On success the ion number is below
    the atomic number, and it is non-negative whenever the token was read as
    a roman numeral. *)
Theorem species_string_to_tuple_bound data s :
  (forall symbol tok n stage,
     species_fields s = Return (symbol, tok) ->
     element_symbol2atomic_number data symbol = Return n ->
     species_ion_number tok = Return stage ->
     (species_string_to_tuple data s = Raise (ValueError SpeciesDoesNotExist)
      <-> stage > n)
     /\ (stage <= n -> species_string_to_tuple data s = Return (n, stage - 1)))
  /\ (species_string_to_tuple data s = Raise (ValueError SpeciesDoesNotExist) ->
      exists symbol tok n stage,
        species_fields s = Return (symbol, tok)
        /\ element_symbol2atomic_number data symbol = Return n
        /\ species_ion_number tok = Return stage
        /\ stage > n)
  /\ (forall n ion_number,
        species_string_to_tuple data s = Return (n, ion_number) ->
        ion_number < n
        /\ exists symbol tok,
             species_fields s = Return (symbol, tok)
             /\ species_ion_number tok = Return (ion_number + 1)
             /\ (forall v, roman_to_int tok = Return v -> 0 <= ion_number)).
Proof.
  split; [|split].
  - intros symbol tok n stage Hf He Hi.
    rewrite (species_string_to_tuple_steps _ _ _ _ _ _ Hf He Hi).
    destruct (stage >? n) eqn:E.
    + apply Z.gtb_lt in E. split; [split; [lia|reflexivity]|lia].
    + rewrite Z.gtb_ltb in E. apply Z.ltb_ge in E.
      split; [split; [discriminate|lia]|reflexivity].
  - intros H.
    destruct (species_string_to_tuple_cases data s)
      as [[_ H']|(symbol & tok & Hf &
                  [(e & _ & [->| ->] & H')
                  |(n & He & [[_ H']|(stage & Hi & H')])])];
      rewrite H' in H; try discriminate.
    destruct (stage >? n) eqn:E; [|discriminate].
    apply Z.gtb_lt in E. exists symbol, tok, n, stage. repeat split; auto. lia.
  - intros n ion_number H.
    destruct (species_string_to_tuple_cases data s)
      as [[_ H']|(symbol & tok & Hf &
                  [(e & _ & _ & H')
                  |(m & He & [[_ H']|(stage & Hi & H')])])];
      rewrite H' in H; try discriminate.
    destruct (stage >? m) eqn:E; [discriminate|].
    rewrite Z.gtb_ltb in E. apply Z.ltb_ge in E. injection H as <- <-.
    split; [lia|]. exists symbol, tok. split; [exact Hf|].
    replace (stage - 1 + 1) with stage by lia. split; [exact Hi|].
    intros v Hv. rewrite (species_ion_number_roman _ _ Hv) in Hi.
    injection Hi as <-. apply roman_to_int_returns in Hv. lia.
Qed.

(** C4, as stated, fails on "Si 0": the symbol resolves to 14 and the token
    to the stage 0, which is below 1, and the parser returns [(14, -1)]. *)
Lemma species_string_to_tuple_Si_0 :
  species_fields "Si 0" = Return ("Si", "0")
  /\ element_symbol2atomic_number atomic_symbols_sample "Si" = Return 14
  /\ species_ion_number "0" = Return 0
  /\ 0 < 1
  /\ species_string_to_tuple atomic_symbols_sample "Si 0" = Return (14, -1)
  /\ species_string_to_tuple atomic_symbols_sample "Si 0"
     <> Raise (ValueError SpeciesDoesNotExist).
Proof.
  repeat split; try (vm_compute; reflexivity); try lia.
  vm_compute. discriminate.
Qed.

Lemma species_string_to_tuple_bound_Fe_99 :
  (species_string_to_tuple atomic_symbols_sample "Fe 99"
   = Raise (ValueError SpeciesDoesNotExist) <-> 99 > 26)
  /\ (99 <= 26 ->
      species_string_to_tuple atomic_symbols_sample "Fe 99" = Return (26, 99 - 1)).
Proof.
  apply (proj1 (species_string_to_tuple_bound atomic_symbols_sample "Fe 99")
               "Fe" "99" 26 99); vm_compute; reflexivity.
Defined.

(** ** The grammar of the species parser *)

(** C6, as the code has it -- the grammar: the parser returns only on
    inputs that start with word characters, optional whitespace and digits
    (the pattern is anchored at the start only, so whatever follows the
    digits is not examined), or that split on whitespace into exactly two
    tokens; it raises the "not of format" [MalformedSpeciesError] exactly on
    the inputs of neither kind. *)
Theorem species_string_to_tuple_grammar data s :
  (forall r,
     species_string_to_tuple data s = Return r ->
     (exists w d, species_prefix s w d)
     \/ (exists a b, Str.split s = [a; b]))
  /\ ((exists w d, species_prefix s w d) ->
      exists w d, species_prefix s w d /\ species_fields s = Return (w, d))
  /\ (species_string_to_tuple data s
      = Raise (MalformedSpeciesError (NotOfFormat s))
      <-> ~ (exists w d, species_prefix s w d)
          /\ ~ (exists a b, Str.split s = [a; b])).
Proof.
  split; [|split].
  - intros r H.
    destruct (species_fields_cases s)
      as [(w & d & Hp & _)|[(_ & a & b & Hs & _)|(_ & _ & Hf)]]; eauto.
    unfold species_string_to_tuple in H. rewrite Hf in H. discriminate.
  - intros (w & d & Hp).
    destruct (species_fields_cases s)
      as [(w' & d' & Hp' & Hf)|[(Hm & _)|(Hm & _)]]; eauto;
      exfalso; exact (species_pattern_complete s w d Hp Hm).
  - split.
    + intros H.
      destruct (species_string_to_tuple_cases data s)
        as [[Hf _]|(symbol & tok & Hf &
                    [(e & _ & [->| ->] & H')
                    |(n & He & [[_ H']|(stage & Hi & H')])])];
        try (rewrite H' in H; try destruct (stage >? n); discriminate).
      destruct (species_fields_cases s)
        as [(w & d & _ & Hf')|[(_ & a & b & _ & Hf')|(Hm & Hlen & _)]];
        try (rewrite Hf' in Hf; discriminate).
      split.
      * intros (w & d & Hp). exact (species_pattern_complete s w d Hp Hm).
      * intros (a & b & Hs). rewrite Hs in Hlen. apply Hlen. reflexivity.
    + intros [Hp Hs].
      destruct (species_fields_cases s)
        as [(w & d & Hp' & _)|[(_ & a & b & Hs' & _)|(_ & _ & Hf)]].
      * exfalso. apply Hp. eauto.
      * exfalso. apply Hs. eauto.
      * unfold species_string_to_tuple. rewrite Hf. reflexivity.
Qed.

(** C6, as stated, fails on "Si 2x": a character follows the ionization
    token, and the parser returns [(14, 1)]. *)
Lemma species_string_to_tuple_Si_2x :
  species_string_to_tuple atomic_symbols_sample "Si 2x" = Return (14, 1)
  /\ forall msg,
       species_string_to_tuple atomic_symbols_sample "Si 2x"
       <> Raise (MalformedSpeciesError msg).
Proof. split; [vm_compute; reflexivity|]. intros msg. vm_compute. discriminate. Qed.

Lemma species_string_to_tuple_grammar_Si :
  species_string_to_tuple atomic_symbols_sample "Si"
  = Raise (MalformedSpeciesError (NotOfFormat "Si"))
  <-> ~ (exists w d, species_prefix "Si" w d)
      /\ ~ (exists a b, Str.split "Si" = [a; b]).
Proof.
  exact (proj2 (proj2 (species_string_to_tuple_grammar atomic_symbols_sample "Si"))).
Defined.

(** ** Quantity strings *)

Lemma split_length_tokens a b c :
  is_token a = true -> is_token b = true -> is_token c = true ->
  Str.split (a +:+ " " +:+ b +:+ " " +:+ c) = [a; b; c].
Proof.
  intros Ha Hb Hc.
  change (" " +:+ b +:+ " " +:+ c) with (String " " (b +:+ " " +:+ c)).
  rewrite split_token_space by auto. rewrite split_two by assumption.
  reflexivity.
Qed.

(** C7, as the code has it -- the tokens of a quantity string: the input is
    split on every run of whitespace and must give exactly two tokens, so
    neither token contains whitespace, and a unit written with blanks inside
    makes three tokens or more and is refused; [MalformedQuantityError] is
    raised when the tokens are not two, when [float] raises [ValueError] on
    the first, and when the unit constructor raises [ValueError] on the
    second; otherwise the quantity built from the two tokens is returned.
    "5 km/s" gives the tokens "5" and "km/s", and "abc" is refused. *)
Theorem parse_quantity_tokens (float quantity : Type)
    (python_float : string -> result float)
    (Quantity : float -> string -> result quantity) :
  let parse := parse_quantity float quantity python_float Quantity in
  (forall s,
     (length (Str.split s) <> 2%nat ->
      parse s = Raise (MalformedQuantityError s))
     /\ (forall value_string unit_string,
           Str.split s = [value_string; unit_string] ->
           is_token value_string = true /\ is_token unit_string = true
           /\ (forall m, python_float value_string = Raise (ValueError m) ->
                         parse s = Raise (MalformedQuantityError s))
           /\ (forall value m,
                 python_float value_string = Return value ->
                 Quantity value unit_string = Raise (ValueError m) ->
                 parse s = Raise (MalformedQuantityError s))
           /\ (forall value q,
                 python_float value_string = Return value ->
                 Quantity value unit_string = Return q ->
                 parse s = Return q)))
  /\ (forall a b c,
        is_token a = true -> is_token b = true -> is_token c = true ->
        parse (a +:+ " " +:+ b +:+ " " +:+ c)
        = Raise (MalformedQuantityError (a +:+ " " +:+ b +:+ " " +:+ c)))
  /\ Str.split "5 km/s" = ["5"; "km/s"]
  /\ parse "abc" = Raise (MalformedQuantityError "abc").
Proof.
  intros parse. split; [|split; [|split; reflexivity]].
  - intros s. split.
    + intros Hlen. unfold parse, parse_quantity.
      destruct (Str.split s) as [|a [|b [|c l]]]; simpl in *; try reflexivity.
      contradiction.
    + intros v u Hs. pose proof (split_tokens s) as Ht. rewrite Hs in Ht.
      inversion Ht as [|? ? Hv Ht']; subst.
      inversion Ht' as [|? ? Hu _]; subst.
      unfold parse, parse_quantity. rewrite Hs. simpl.
      repeat split; auto.
      * intros m Hf. rewrite Hf. reflexivity.
      * intros value m Hf Hq. rewrite Hf. simpl. rewrite Hq. reflexivity.
      * intros value q Hf Hq. rewrite Hf. simpl. rewrite Hq. reflexivity.
  - intros a b c Ha Hb Hc. unfold parse, parse_quantity.
    rewrite split_length_tokens by assumption. reflexivity.
Qed.

(** C7, as stated, fails on "5 km / s": the first run of whitespace is
    followed by "km / s", which would be the unit token, and the stand-in
    constructor accepts every unit string; yet the input is refused, for it
    splits into four tokens. *)
Lemma parse_quantity_unit_with_blanks :
  Str.split "5 km / s" = ["5"; "km"; "/"; "s"]
  /\ float_sample "5" = Return 5
  /\ Quantity_sample 5 "km / s" = Return (5, "km / s")
  /\ parse_quantity Z (Z * string) float_sample Quantity_sample "5 km / s"
     = Raise (MalformedQuantityError "5 km / s")
  /\ parse_quantity Z (Z * string) float_sample Quantity_sample "5 km / s"
     <> Return (5, "km / s").
Proof. repeat split; try (vm_compute; reflexivity). vm_compute. discriminate. Qed.

Lemma parse_quantity_5_km_s :
  parse_quantity Z (Z * string) float_sample Quantity_sample "5 km/s"
  = Return (5, "km/s").
Proof.
  destruct (parse_quantity_tokens Z (Z * string) float_sample Quantity_sample)
    as [H _].
  destruct (H "5 km/s") as [_ H2].
  destruct (H2 "5" "km/s" eq_refl) as (_ & _ & _ & _ & H3).
  apply (H3 5); vm_compute; reflexivity.
Defined.

(** ** Concrete cases *)

Example int_to_roman_doctest :
  int_to_roman 0 = Raise (ValueError ArgumentRange)
  /\ int_to_roman (-1) = Raise (ValueError ArgumentRange)
  /\ int_to_roman 4000 = Raise (ValueError ArgumentRange)
  /\ int_to_roman 2000 = Return "MM"
  /\ int_to_roman 1999 = Return "MCMXCIX".
Proof. repeat split; reflexivity. Qed.

Example roman_to_int_doctest :
  roman_to_int "VVVIV" = Raise (ValueError (NotRomanNumeral "VVVIV"))
  /\ roman_to_int "a" = Raise (ValueError (NotRomanNumeral "A"))
  /\ roman_to_int "IL" = Raise (ValueError (NotRomanNumeral "IL"))
  /\ roman_to_int "iv" = Return 4.
Proof. repeat split; reflexivity. Qed.

Example lookup_any_capitalisation :
  element_symbol2atomic_number atomic_symbols_sample "fe" = Return 26
  /\ element_symbol2atomic_number atomic_symbols_sample "FE" = Return 26
  /\ element_symbol2atomic_number atomic_symbols_sample "Xx"
     = Raise (MalformedElementSymbolError "Xx").
Proof. repeat split; vm_compute; reflexivity. Qed.

Example parse_species_errors :
  species_string_to_tuple atomic_symbols_sample "Xx 2"
  = Raise (MalformedElementSymbolError "Xx")
  /\ species_string_to_tuple atomic_symbols_sample "Fe 99"
     = Raise (ValueError SpeciesDoesNotExist)
  /\ species_string_to_tuple atomic_symbols_sample "Si II x"
     = Raise (MalformedSpeciesError (NotOfFormat "Si II x"))
  /\ species_string_to_tuple atomic_symbols_sample "Si IIII"
     = Raise (MalformedSpeciesError (IonNumberNotParsed "IIII")).
Proof. repeat split; vm_compute; reflexivity. Qed.

(** * Further properties of the module *)

(** ** The signed sum of [roman_to_int] *)

Lemma sum_places_cons a l : sum_places (a :: l) = a + sum_places l.
Proof.
  unfold sum_places. simpl.
  assert (H : forall l x y, fold_left (fun r n => r + n) l (x + y)
                            = x + fold_left (fun r n => r + n) l y).
  { clear. induction l as [|b l IH]; intros x y; simpl; [reflexivity|].
    rewrite <- Z.add_assoc. apply IH. }
  replace (0 + a) with (a + 0) by lia. apply H.
Qed.

(** The value of a numeral is one of [ints]. *)
Lemma numeral_int_value c :
  is_numeral c = true -> exists v, numeral_int c = Return v /\ In v ints.
Proof.
  destruct c as [[] [] [] [] [] [] [] []]; vm_compute; try discriminate;
    intros _; eexists; (split; [reflexivity|]); tauto.
Qed.

(** A larger value is at least the double. *)
Lemma ints_double v w : In v ints -> In w ints -> w > v -> 2 * v <= w.
Proof.
  unfold ints. simpl. intros Hv Hw.
  repeat (destruct Hv as [<-|Hv]); try contradiction;
    repeat (destruct Hw as [<-|Hw]); try contradiction; lia.
Qed.

Lemma ints_positive v : In v ints -> 1 <= v.
Proof.
  unfold ints. simpl. intros Hv.
  repeat (destruct Hv as [<-|Hv]); try contradiction; lia.
Qed.

(** From any index on, the signed sum of what is left is at least the value
    of the numeral at that index. *)
Lemma get_end s i : (i + 1 = String.length s)%nat -> String.get (i + 1) s = None.
Proof.
  revert i. induction s as [|x r IH]; intros i Hi; [reflexivity|].
  replace (i + 1)%nat with (S i) by lia. simpl in *.
  destruct i as [|i].
  - destruct r; [reflexivity|simpl in Hi; lia].
  - replace (S i) with (i + 1)%nat by lia. apply IH. lia.
Qed.

Lemma roman_places_lower_bound s :
  Str.forallb is_numeral s = true ->
  forall n i, (i + S n = String.length s)%nat ->
  exists places c v,
    roman_places s i (S n) = Return places
    /\ String.get i s = Some c
    /\ numeral_int c = Return v
    /\ v <= sum_places places.
Proof.
  intros Hs. induction n as [|n IH]; intros i Hi.
  - destruct (get_lt s i) as [c Hc]; [lia|].
    destruct (numeral_int_value c (forallb_get _ _ _ _ Hs Hc)) as (v & Hv & Hin).
    exists [v], c, v. split; [|split; [exact Hc|split; [exact Hv|]]].
    + rewrite roman_places_S. unfold str_get.
      rewrite Hc, bind_Return, (get_end s i) by lia.
      unfold numeral_int in Hv.
      destruct (list_index c nums) as [k|]; [|discriminate].
      unfold mbind at 1, result_bind at 1 in Hv.
      rewrite bind_Return, Hv. reflexivity.
    + unfold sum_places. simpl. lia.
  - destruct (get_lt s i) as [c Hc]; [lia|].
    destruct (numeral_int_value c (forallb_get _ _ _ _ Hs Hc)) as (v & Hv & Hin).
    destruct (IH (S i)) as (ps & c' & v' & Hps & Hc' & Hv' & Hsum); [lia|].
    pose proof (forallb_get _ _ _ _ Hs Hc') as Hnum'.
    destruct (numeral_int_value c' Hnum') as (v'' & Hv'' & Hin').
    assert (v'' = v') as -> by congruence. clear Hv''.
    exists ((if v' >? v then v * -1 else v) :: ps), c, v.
    split; [|split; [exact Hc|split; [exact Hv|]]].
    + rewrite roman_places_S. unfold str_get. rewrite Hc, bind_Return.
      replace (i + 1)%nat with (S i) by lia. rewrite Hc', Hps.
      unfold numeral_int in Hv, Hv'.
      destruct (list_index c nums) as [k|]; [|discriminate].
      unfold mbind at 1, result_bind at 1 in Hv.
      rewrite bind_Return, Hv, !bind_Return.
      destruct (list_index c' nums) as [k'|]; [|discriminate].
      unfold mbind at 1, result_bind at 1 in Hv'.
      rewrite !bind_Return, Hv'. reflexivity.
    + rewrite sum_places_cons.
      pose proof (ints_positive _ Hin). pose proof (ints_positive _ Hin').
      destruct (v' >? v) eqn:E.
      * apply Z.gtb_lt in E. pose proof (ints_double v v' Hin Hin'). lia.
      * lia.
Qed.

(** X1 -- the signed sum is positive: on a non-empty string of numerals the
    second loop of [roman_to_int] runs to its end, and the sum of the places
    is at least the value of the first numeral, so at least 1; the
    subtracted values never outweigh the added ones. *)
Theorem roman_places_sum_positive s :
  nonempty s = true ->
  Str.forallb is_numeral s = true ->
  exists places c v,
    roman_places s 0 (String.length s) = Return places
    /\ String.get 0 s = Some c
    /\ numeral_int c = Return v
    /\ 1 <= v <= sum_places places.
Proof.
  intros Hne Hs. destruct s as [|x r]; [discriminate|].
  destruct (roman_places_lower_bound (String x r) Hs (String.length r) 0)
    as (ps & c & v & Hps & Hc & Hv & Hsum); [reflexivity|].
  exists ps, c, v. repeat split; try assumption.
  destruct (numeral_int_value c (forallb_get _ _ _ _ Hs Hc)) as (v' & Hv' & Hin).
  assert (v' = v) as -> by congruence. apply ints_positive, Hin.
Qed.

Lemma roman_places_sum_positive_IX :
  exists places c v,
    roman_places "IX" 0 (String.length "IX") = Return places
    /\ String.get 0 "IX" = Some c
    /\ numeral_int c = Return v
    /\ 1 <= v <= sum_places places.
Proof. apply (roman_places_sum_positive "IX"); reflexivity. Defined.

(** X2 -- the range error of [roman_to_int]: the [ValueError] of
    [int_to_roman] comes out of [roman_to_int] exactly for the empty string
    and for the strings of numerals whose signed sum is 4000 or more. *)
Theorem roman_to_int_range_error s :
  roman_to_int s = Raise (ValueError ArgumentRange)
  <-> Str.forallb is_numeral (Str.upper s) = true
      /\ (s = EmptyString
          \/ exists places,
               roman_places (Str.upper s) 0 (String.length (Str.upper s))
               = Return places
               /\ 4000 <= sum_places places).
Proof.
  destruct (roman_to_int_cases s) as [[Hu H]|[Hu (ps & Hps & H)]];
    simpl in *.
  - rewrite H, Hu. split; [discriminate|]. intros [? _]. discriminate.
  - assert (Hpos : s <> EmptyString -> 1 <= sum_places ps).
    { intros Hs. destruct s as [|x r]; [contradiction|].
      destruct (roman_places_lower_bound _ Hu (String.length (Str.upper r)) 0)
        as (ps' & c & v & Hps' & Hc & Hv & Hsum); [reflexivity|].
      assert (E : Return ps' = Return ps)
        by (etransitivity; [symmetry; exact Hps'|exact Hps]).
      injection E as ->.
      destruct (numeral_int_value c (forallb_get _ _ _ _ Hu Hc))
        as (v' & Hv' & Hin).
      assert (v' = v) as -> by congruence.
      pose proof (ints_positive _ Hin). lia. }
    destruct H as [[Henc H]|[(Hv & Hne & H)|[Hv H]]]; rewrite H.
    + split; [discriminate|]. intros [_ [->|(ps' & Hps' & Hsum)]].
      * vm_compute in H. discriminate.
      * assert (ps' = ps) as -> by congruence.
        apply int_to_roman_in_range in Henc. lia.
    + split; [discriminate|]. intros [_ [->|(ps' & Hps' & Hsum)]].
      * vm_compute in H. discriminate.
      * assert (ps' = ps) as -> by congruence. lia.
    + split; [|reflexivity]. intros _. split; [exact Hu|].
      destruct s as [|x r]; [left; reflexivity|right].
      exists ps. split; [exact Hps|].
      assert (1 <= sum_places ps) by (apply Hpos; discriminate). lia.
Qed.

(** ** Case *)

Lemma upper_char_idem c : Str.upper_char (Str.upper_char c) = Str.upper_char c.
Proof. by_cases_on_char c. Qed.

Lemma upper_char_lower_char c :
  Str.upper_char (Str.lower_char c) = Str.upper_char c.
Proof. by_cases_on_char c. Qed.

Lemma lower_char_upper_char c :
  Str.lower_char (Str.upper_char c) = Str.lower_char c.
Proof. by_cases_on_char c. Qed.

Lemma lower_char_idem c : Str.lower_char (Str.lower_char c) = Str.lower_char c.
Proof. by_cases_on_char c. Qed.

Lemma map_map f g s : Str.map f (Str.map g s) = Str.map (fun c => f (g c)) s.
Proof. induction s as [|c r IH]; simpl; [|rewrite IH]; reflexivity. Qed.

Lemma map_ext f g s : (forall c, f c = g c) -> Str.map f s = Str.map g s.
Proof.
  intros H. induction s as [|c r IH]; simpl; [|rewrite H, IH]; reflexivity.
Qed.

Lemma map_length f s : String.length (Str.map f s) = String.length s.
Proof. induction s as [|c r IH]; simpl; [|rewrite IH]; reflexivity. Qed.

Lemma upper_upper s : Str.upper (Str.upper s) = Str.upper s.
Proof. unfold Str.upper. rewrite map_map. apply map_ext, upper_char_idem. Qed.

Lemma upper_lower s : Str.upper (Str.lower s) = Str.upper s.
Proof.
  unfold Str.upper, Str.lower. rewrite map_map. apply map_ext, upper_char_lower_char.
Qed.

Lemma lower_upper s : Str.lower (Str.upper s) = Str.lower s.
Proof.
  unfold Str.upper, Str.lower. rewrite map_map. apply map_ext, lower_char_upper_char.
Qed.

Lemma lower_lower s : Str.lower (Str.lower s) = Str.lower s.
Proof. unfold Str.lower. rewrite map_map. apply map_ext, lower_char_idem. Qed.

Lemma roman_to_int_upper_eq s t :
  Str.upper s = Str.upper t -> roman_to_int s = roman_to_int t.
Proof. intros H. unfold roman_to_int. rewrite H. reflexivity. Qed.

(** X3 -- [roman_to_int] does not look at the case of its input: a string,
    its upper-case form and its lower-case form have the same outcome, and
    a value that is returned is the one of the upper-case numeral. *)
Theorem roman_to_int_any_case s :
  roman_to_int (Str.upper s) = roman_to_int s
  /\ roman_to_int (Str.lower s) = roman_to_int s
  /\ forall v, roman_to_int s = Return v ->
               int_to_roman v = Return (Str.upper s).
Proof.
  split; [|split].
  - apply roman_to_int_upper_eq, upper_upper.
  - apply roman_to_int_upper_eq, upper_lower.
  - intros v Hv. apply roman_to_int_returns, Hv.
Qed.

(** ** The numerals [int_to_roman] writes *)

Lemma roman_length_table : forallb roman_length_ok (Z_range 1 3999) = true.
Proof. vm_compute. reflexivity. Qed.

(** X4 -- what [int_to_roman] writes: a value it returns is a non-empty
    string of the seven upper-case numerals, at most fifteen characters
    long, and it determines the integer: two integers with the same numeral
    are equal. *)
Theorem int_to_roman_numeral n s :
  int_to_roman n = Return s ->
  nonempty s = true
  /\ Str.forallb is_numeral s = true
  /\ Str.upper s = s
  /\ (String.length s <= 15)%nat
  /\ forall m, int_to_roman m = Return s -> m = n.
Proof.
  intros Hs. pose proof (int_to_roman_in_range _ _ Hs) as Hn.
  destruct (roman_codec_sound n Hn) as (Henc & Hdec & Hne & Hnum).
  assert (s = canonical_roman n) as -> by congruence.
  repeat split; try assumption.
  - apply (upper_idem_on is_numeral); [|exact Hnum].
    intros c. by_cases_on_char c.
  - assert (Hok : roman_length_ok n = true).
    { eapply forallb_forall; [apply roman_length_table | apply Z_range_In; lia]. }
    unfold roman_length_ok in Hok. rewrite Henc in Hok.
    apply Nat.leb_le, Hok.
  - intros m Hm. pose proof (int_to_roman_in_range _ _ Hm) as Hm'.
    destruct (roman_codec_sound m Hm') as (Henc' & Hdec' & _).
    assert (canonical_roman m = canonical_roman n) as E by congruence.
    rewrite E in Hdec'. congruence.
Qed.

Lemma int_to_roman_numeral_3888 :
  nonempty "MMMDCCCLXXXVIII" = true
  /\ Str.forallb is_numeral "MMMDCCCLXXXVIII" = true
  /\ Str.upper "MMMDCCCLXXXVIII" = "MMMDCCCLXXXVIII"
  /\ (String.length "MMMDCCCLXXXVIII" <= 15)%nat
  /\ forall m, int_to_roman m = Return "MMMDCCCLXXXVIII" -> m = 3888.
Proof. apply (int_to_roman_numeral 3888). reflexivity. Defined.

(** ** The registry as a pair of dictionaries *)

Lemma fold_insert_lookup {K V} `{Countable K} (items : list (K * V))
    (m : gmap K V) k v :
  NoDup (items.*1) ->
  fold_left (fun d kv => <[kv.1 := kv.2]> d) items m !! k = Some v
  <-> (k, v) ∈ items \/ ((k ∉ items.*1) /\ m !! k = Some v).
Proof.
  revert m. induction items as [|[k0 v0] items IH]; intros m Hnd; simpl.
  - split; [intros Hm; right; split; [apply not_elem_of_nil|exact Hm]|].
    intros [Hin|[_ Hm]]; [|exact Hm]. apply elem_of_nil in Hin. contradiction.
  - apply NoDup_cons in Hnd as [Hk0 Hnd]. rewrite (IH _ Hnd).
    rewrite elem_of_cons, not_elem_of_cons.
    destruct (decide (k = k0)) as [->|Hne].
    + rewrite lookup_insert_eq. split.
      * intros [Hin|[_ [= ->]]]; [|left; left; reflexivity].
        exfalso. apply Hk0. apply list_elem_of_fmap. exists (k0, v). auto.
      * intros [[[= ->]|Hin]|[[Hc _] _]]; [| |contradiction].
        -- right. split; [exact Hk0|reflexivity].
        -- left. exact Hin.
    + rewrite lookup_insert_ne by congruence. split.
      * intros [Hin|[Hk Hm]]; [left; right; exact Hin|right; auto].
      * intros [[[= -> ->]|Hin]|[[_ Hk] Hm]]; [contradiction|left; exact Hin|right; auto].
Qed.

Lemma OrderedDict_lookup {K V} `{Countable K} (items : list (K * V)) k v :
  NoDup (items.*1) ->
  OrderedDict items !! k = Some v <-> (k, v) ∈ items.
Proof.
  intros Hnd. unfold OrderedDict. rewrite fold_insert_lookup by exact Hnd.
  rewrite lookup_empty. split; [intros [Hin|[_ [=]]]; exact Hin|auto].
Qed.

Lemma zip_columns (data : list (Z * string)) :
  zip (data.*2) (data.*1) = (fun p => (p.2, p.1)) <$> data.
Proof.
  induction data as [|[n s] data IH]; [reflexivity|].
  csimpl. f_equal. exact IH.
Qed.

Lemma zip_columns_fst (data : list (Z * string)) :
  (zip (data.*2) (data.*1)).*1 = data.*2.
Proof.
  rewrite zip_columns. induction data as [|[n s] data IH]; [reflexivity|].
  csimpl. f_equal. exact IH.
Qed.

Lemma zip_columns_elem (data : list (Z * string)) n s :
  (s, n) ∈ zip (data.*2) (data.*1) <-> (n, s) ∈ data.
Proof.
  rewrite zip_columns, list_elem_of_fmap. split.
  - intros ([n' s'] & [= -> ->] & Hin). exact Hin.
  - intros Hin. exists (n, s). auto.
Qed.

Lemma registry_lookups data n symbol :
  NoDup (data.*1) -> NoDup (data.*2) ->
  atomic_number2symbol data !! n = Some symbol
  <-> symbol2atomic_number data !! symbol = Some n.
Proof.
  intros H1 H2. unfold atomic_number2symbol, symbol2atomic_number.
  rewrite !OrderedDict_lookup by (rewrite ?zip_columns_fst; assumption).
  symmetry. apply zip_columns_elem.
Qed.

Lemma lookup_symbol_then_number data s n :
  NoDup (data.*1) -> NoDup (data.*2) ->
  element_symbol2atomic_number data s = Return n ->
  exists r, reformat_element_symbol s = Return r
            /\ atomic_number2element_symbol data n = Return r.
Proof.
  intros H1 H2. unfold element_symbol2atomic_number.
  destruct (reformat_element_symbol s) as [r|]; [|discriminate].
  rewrite bind_Return.
  destruct (symbol2atomic_number data !! r) as [n'|] eqn:Hl; [|discriminate].
  intros [= ->]. exists r. split; [reflexivity|].
  unfold atomic_number2element_symbol.
  apply (registry_lookups data n r H1 H2) in Hl. rewrite Hl. reflexivity.
Qed.

(** X5 -- the two dictionaries are inverse to each other: when no atomic
    number and no symbol occurs twice in the table, a number maps to a
    symbol in [atomic_number2symbol] exactly when that symbol maps to the
    number in [symbol2atomic_number], and exactly when the pair is a record
    of the table. *)
Theorem registry_inverse data n symbol :
  NoDup (data.*1) -> NoDup (data.*2) ->
  (atomic_number2symbol data !! n = Some symbol <-> (n, symbol) ∈ data)
  /\ (symbol2atomic_number data !! symbol = Some n <-> (n, symbol) ∈ data).
Proof.
  intros H1 H2. split.
  - apply OrderedDict_lookup, H1.
  - unfold symbol2atomic_number. rewrite OrderedDict_lookup.
    + apply zip_columns_elem.
    + rewrite zip_columns_fst. exact H2.
Qed.

Lemma registry_inverse_sample :
  (atomic_number2symbol atomic_symbols_sample !! 26 = Some "Fe"
   <-> (26, "Fe") ∈ atomic_symbols_sample)
  /\ (symbol2atomic_number atomic_symbols_sample !! "Fe" = Some 26
      <-> (26, "Fe") ∈ atomic_symbols_sample).
Proof.
  apply (registry_inverse atomic_symbols_sample 26 "Fe");
    apply (bool_decide_unpack _); vm_compute; reflexivity.
Defined.

(** ** Reformatting and looking up symbols *)

Lemma reformat_cons c r :
  reformat_element_symbol (String c r)
  = Return (String (Str.upper_char c) (Str.lower r)).
Proof. reflexivity. Qed.

Lemma reformat_same_case s t :
  Str.upper t = Str.upper s ->
  reformat_element_symbol t = reformat_element_symbol s.
Proof.
  destruct s as [|c s'], t as [|c' t']; try discriminate; [reflexivity|].
  unfold Str.upper. simpl. intros [= Hc Ht].
  rewrite !reformat_cons, Hc.
  rewrite <- (lower_upper t'), <- (lower_upper s').
  unfold Str.upper. rewrite Ht. reflexivity.
Qed.

(** X6 -- [reformat_element_symbol] normalises: on a non-empty string it
    returns a string of the same length, which it maps to itself, and two
    strings that differ by case only are reformatted alike. *)
Theorem reformat_element_symbol_normal s r :
  reformat_element_symbol s = Return r ->
  String.length r = String.length s
  /\ reformat_element_symbol r = Return r
  /\ forall t, Str.upper t = Str.upper s ->
               reformat_element_symbol t = Return r.
Proof.
  destruct s as [|c s']; [discriminate|].
  rewrite reformat_cons. intros [= <-]. split; [|split].
  - simpl. unfold Str.lower. rewrite map_length. reflexivity.
  - rewrite reformat_cons, upper_char_idem, lower_lower. reflexivity.
  - intros t Ht. rewrite (reformat_same_case _ _ Ht). apply reformat_cons.
Qed.

Lemma reformat_element_symbol_normal_fe :
  String.length "Fe" = String.length "fE"
  /\ reformat_element_symbol "Fe" = Return "Fe"
  /\ forall t, Str.upper t = Str.upper "fE" ->
               reformat_element_symbol t = Return "Fe".
Proof. apply (reformat_element_symbol_normal "fE" "Fe"). reflexivity. Defined.

(** X7 -- symbol lookup does not look at the case: two strings that differ
    by case only resolve to the same atomic number, or both fail. *)
Theorem element_symbol2atomic_number_any_case data s t :
  Str.upper s = Str.upper t ->
  (forall n, element_symbol2atomic_number data s = Return n
             <-> element_symbol2atomic_number data t = Return n)
  /\ (element_symbol2atomic_number data s = Raise (MalformedElementSymbolError s)
      <-> element_symbol2atomic_number data t
          = Raise (MalformedElementSymbolError t)).
Proof.
  intros E. unfold element_symbol2atomic_number.
  destruct s as [|c s'], t as [|c' t']; try discriminate.
  - split; [reflexivity|]. split; discriminate.
  - rewrite (reformat_same_case (String c s') (String c' t'))
      by (symmetry; exact E).
    rewrite reformat_cons, !bind_Return.
    set (r := String (Str.upper_char c) (Str.lower s')).
    destruct (symbol2atomic_number data !! r).
    + split; [reflexivity|]. split; discriminate.
    + split; [intros n; split; discriminate|]. split; reflexivity.
Qed.

Lemma element_symbol2atomic_number_any_case_fe :
  (forall n, element_symbol2atomic_number atomic_symbols_sample "fe" = Return n
             <-> element_symbol2atomic_number atomic_symbols_sample "FE" = Return n)
  /\ (element_symbol2atomic_number atomic_symbols_sample "fe"
      = Raise (MalformedElementSymbolError "fe")
      <-> element_symbol2atomic_number atomic_symbols_sample "FE"
          = Raise (MalformedElementSymbolError "FE")).
Proof.
  apply (element_symbol2atomic_number_any_case atomic_symbols_sample "fe" "FE").
  reflexivity.
Defined.

(** X8 -- the two lookups compose: when no atomic number and no symbol
    occurs twice in the table, a number that [element_symbol2atomic_number]
    returns is mapped by [atomic_number2element_symbol] to the reformatted
    input; and a canonical symbol that [atomic_number2element_symbol]
    returns is mapped back to its number. *)
Theorem registry_round_trip data :
  NoDup (data.*1) -> NoDup (data.*2) ->
  (forall s n,
     element_symbol2atomic_number data s = Return n ->
     exists r, reformat_element_symbol s = Return r
               /\ atomic_number2element_symbol data n = Return r)
  /\ (forall n symbol,
        atomic_number2element_symbol data n = Return symbol ->
        canonical_symbol symbol = true ->
        element_symbol2atomic_number data symbol = Return n).
Proof.
  intros H1 H2. split.
  - intros s n. apply lookup_symbol_then_number; assumption.
  - intros n symbol. unfold atomic_number2element_symbol.
    destruct (atomic_number2symbol data !! n) as [s'|] eqn:Hl; [|discriminate].
    intros [= ->] Hc.
    apply element_symbol2atomic_number_canonical; [exact Hc|].
    apply (registry_lookups data n symbol H1 H2), Hl.
Qed.

Lemma registry_round_trip_sample :
  (forall s n,
     element_symbol2atomic_number atomic_symbols_sample s = Return n ->
     exists r, reformat_element_symbol s = Return r
               /\ atomic_number2element_symbol atomic_symbols_sample n = Return r)
  /\ (forall n symbol,
        atomic_number2element_symbol atomic_symbols_sample n = Return symbol ->
        canonical_symbol symbol = true ->
        element_symbol2atomic_number atomic_symbols_sample symbol = Return n).
Proof.
  apply (registry_round_trip atomic_symbols_sample);
    apply (bool_decide_unpack _); vm_compute; reflexivity.
Defined.

(** ** The outcomes of the species parser *)

Lemma nonempty_get s : nonempty s = true -> exists c, String.get 0 s = Some c.
Proof. destruct s as [|c r]; [discriminate|]. exists c. reflexivity. Qed.

Lemma element_symbol2atomic_number_nonempty data s e :
  nonempty s = true ->
  element_symbol2atomic_number data s = Raise e ->
  e = MalformedElementSymbolError s.
Proof.
  intros Hne He. destruct s as [|c r]; [discriminate|].
  unfold element_symbol2atomic_number in He. rewrite reformat_cons in He.
  rewrite bind_Return in He.
  destruct (symbol2atomic_number data !! _); [discriminate|].
  injection He as <-. reflexivity.
Qed.

(** The symbol field is never empty. *)
Lemma species_fields_symbol s symbol tok :
  species_fields s = Return (symbol, tok) ->
  nonempty symbol = true /\ nonempty tok = true.
Proof.
  intros Hf.
  destruct (species_fields_cases s)
    as [(w & d & Hp & Hf')|[(_ & a & b & Hs & Hf')|(_ & _ & Hf')]];
    rewrite Hf' in Hf; try discriminate; injection Hf as <- <-.
  - destruct Hp as (sp & rest & _ & Hw & _ & _ & Hd & _). auto.
  - pose proof (split_tokens s) as Ht. rewrite Hs in Ht.
    inversion Ht as [|? ? Ha Ht']; subst.
    inversion Ht' as [|? ? Hb _]; subst.
    unfold is_token in Ha, Hb.
    apply andb_true_iff in Ha as [Ha _]. apply andb_true_iff in Hb as [Hb _].
    auto.
Qed.

(** X9 -- the outcomes of [species_string_to_tuple]: it returns a pair whose
    ion number is below the atomic number, or raises one of four errors:
    the two [MalformedSpeciesError]s, [MalformedElementSymbolError] on the
    symbol field, or the "Species given does not exist" [ValueError]. The
    unguarded index of [reformat_element_symbol] is never out of bounds
    here, because the symbol field is never empty, and no error of
    [roman_to_int], [int] or the unpacking comes out. *)
Theorem species_string_to_tuple_outcomes data s :
  (exists n ion_number,
     species_string_to_tuple data s = Return (n, ion_number)
     /\ ion_number < n)
  \/ species_string_to_tuple data s
     = Raise (MalformedSpeciesError (NotOfFormat s))
  \/ (exists symbol tok,
        species_fields s = Return (symbol, tok)
        /\ (species_string_to_tuple data s
            = Raise (MalformedElementSymbolError symbol)
            \/ species_string_to_tuple data s
               = Raise (MalformedSpeciesError (IonNumberNotParsed tok))
            \/ species_string_to_tuple data s
               = Raise (ValueError SpeciesDoesNotExist))).
Proof.
  destruct (species_string_to_tuple_cases data s)
    as [[_ H]|(symbol & tok & Hf &
               [(e & He & _ & H)|(n & He & [[_ H]|(stage & Hi & H)])])].
  - right. left. exact H.
  - right. right. exists symbol, tok. split; [exact Hf|]. left.
    destruct (species_fields_symbol _ _ _ Hf) as [Hne _].
    rewrite H. f_equal.
    eapply element_symbol2atomic_number_nonempty; eauto.
  - right. right. exists symbol, tok. auto.
  - destruct (stage >? n) eqn:E.
    + right. right. exists symbol, tok. auto.
    + left. exists n, (stage - 1). split; [exact H|].
      rewrite Z.gtb_ltb in E. apply Z.ltb_ge in E. lia.
Qed.

(** ** Digits next to the symbol, and blanks *)

Lemma species_fields_pattern_general w sp d rest :
  nonempty w = true -> Str.forallb Str.isword w = true ->
  Str.forallb Str.isspace sp = true ->
  nonempty d = true -> Str.forallb Str.isdigit d = true ->
  Str.run Str.isword (w +:+ sp +:+ d +:+ rest) = String.length w ->
  Str.run Str.isdigit rest = O ->
  Re.match_items Re.species_pattern (w +:+ sp +:+ d +:+ rest) = Some [w; d].
Proof.
  intros Hw Hww Hsp Hd Hdd Hrun_w Hrest.
  assert (Hrun_d : Str.run Str.isdigit (d +:+ rest) = String.length d)
    by (rewrite run_app, Hrest by assumption; lia).
  assert (Hrun_s : Str.run Str.isspace (sp +:+ d +:+ rest) = String.length sp).
  { rewrite run_app by assumption.
    destruct d as [|c r]; [discriminate|]. rewrite append_cons. simpl.
    simpl in Hdd. apply andb_true_iff in Hdd as [Hc _].
    rewrite (digit_not_space c Hc). lia. }
  unfold Re.species_pattern. simpl Re.match_items. rewrite Hrun_w.
  erewrite backtrack_first; [unfold Re.with_group; simpl Re.captured;
                             rewrite take_app_length; reflexivity| |].
  - simpl. apply nonempty_length. assumption.
  - rewrite drop_app_length, Hrun_s.
    erewrite backtrack_first;
      [unfold Re.with_group; simpl Re.captured; reflexivity| |].
    + simpl. lia.
    + rewrite drop_app_length.
      pose proof (match_digits (d +:+ rest)) as Hm. simpl Re.match_items in Hm.
      rewrite Hm, Hrun_d, take_app_length. clear Hm.
      apply nonempty_length in Hd.
      destruct (1 <=? _)%nat eqn:E; [reflexivity|]. apply Nat.leb_gt in E. lia.
Qed.

Lemma run_blocked p a b :
  Str.forallb p a = true -> Str.run p b = O ->
  Str.run p (a +:+ b) = String.length a.
Proof. intros Ha Hb. rewrite run_app, Hb by assumption. lia. Qed.

Lemma run_space_first p sp r :
  (forall c, Str.isspace c = true -> p c = false) ->
  nonempty sp = true -> Str.forallb Str.isspace sp = true ->
  Str.run p (sp +:+ r) = O.
Proof.
  intros Hp Hne Hsp. destruct sp as [|c sp']; [discriminate|].
  rewrite append_cons. simpl in *. apply andb_true_iff in Hsp as [Hc _].
  rewrite (Hp c Hc). reflexivity.
Qed.

Lemma space_not_word c : Str.isspace c = true -> Str.isword c = false.
Proof. by_cases_on_char c. Qed.

Lemma digit_is_word c : Str.isdigit c = true -> Str.isword c = true.
Proof. by_cases_on_char c. Qed.

(** X10 -- any blanks, anything after: for a symbol of word characters, a
    non-empty run of whitespace, a run of digits and a rest that does not
    start with a digit, the fields are the symbol and the digits, so the
    outcome of the parser is that of the symbol, one blank and the
    digits. *)
Theorem species_string_to_tuple_blanks data w sp d rest :
  nonempty w = true -> Str.forallb Str.isword w = true ->
  nonempty sp = true -> Str.forallb Str.isspace sp = true ->
  nonempty d = true -> Str.forallb Str.isdigit d = true ->
  Str.run Str.isdigit rest = O ->
  species_fields (w +:+ sp +:+ d +:+ rest) = Return (w, d)
  /\ species_string_to_tuple data (w +:+ sp +:+ d +:+ rest)
     = species_string_to_tuple data (w +:+ " " +:+ d).
Proof.
  intros Hw Hww Hne Hsp Hd Hdd Hrest.
  assert (H1 : species_fields (w +:+ sp +:+ d +:+ rest) = Return (w, d)).
  { apply species_fields_pattern, species_fields_pattern_general; auto.
    apply run_blocked; [assumption|].
    apply run_space_first; auto using space_not_word. }
  assert (H2 : species_fields (w +:+ " " +:+ d) = Return (w, d))
    by (apply species_fields_pattern, species_pattern_symbol_digits; auto).
  split; [exact H1|]. unfold species_string_to_tuple. rewrite H1, H2. reflexivity.
Qed.

Lemma species_string_to_tuple_blanks_Fe :
  species_fields "Fe   12 (iron)" = Return ("Fe", "12")
  /\ species_string_to_tuple atomic_symbols_sample "Fe   12 (iron)"
     = species_string_to_tuple atomic_symbols_sample "Fe 12".
Proof.
  apply (species_string_to_tuple_blanks atomic_symbols_sample
           "Fe" "   " "12" " (iron)"); reflexivity.
Defined.

(** X11 -- digits next to the symbol: when the input is word characters
    followed by one last digit and nothing else, the greedy [(\w+)] keeps
    every character but the last, so the ionization token is that single
    digit and every digit before it belongs to the symbol field; the
    symbol field then contains a digit whenever two digits or more were
    written. *)
Theorem species_fields_adjacent t c :
  nonempty t = true -> Str.forallb Str.isword t = true ->
  Str.isdigit c = true ->
  species_fields (t +:+ String c EmptyString) = Return (t, String c EmptyString).
Proof.
  intros Ht Htt Hc. apply species_fields_pattern.
  assert (Hs : Str.forallb Str.isword (t +:+ String c EmptyString) = true).
  { rewrite forallb_app, Htt. simpl. rewrite (digit_is_word c Hc). reflexivity. }
  unfold Re.species_pattern. simpl Re.match_items.
  rewrite (run_all _ _ Hs).
  assert (Hlen : String.length (t +:+ String c EmptyString)
                 = S (String.length t)).
  { clear. induction t as [|x r IH]; [reflexivity|].
    rewrite append_cons. simpl. rewrite IH. reflexivity. }
  rewrite Hlen, backtrack_eq.
  replace (Str.drop (S (String.length t)) (t +:+ String c EmptyString))
    with EmptyString.
  2: { rewrite <- Hlen. clear. generalize (t +:+ String c EmptyString).
       intros s. induction s as [|x r IH]; [reflexivity|exact IH]. }
  simpl Re.least. simpl (1 <=? S _)%nat.
  change (Re.backtrack _ _ EmptyString (Str.run Str.isspace EmptyString))
    with (@None (list string)).
  erewrite backtrack_first;
    [unfold Re.with_group; simpl Re.captured;
     rewrite take_app_length; reflexivity| |].
  - simpl. apply nonempty_length, Ht.
  - rewrite drop_app_length. simpl Str.run.
    rewrite (digit_not_space c Hc).
    erewrite backtrack_first;
      [unfold Re.with_group; simpl Re.captured; reflexivity|simpl; lia|].
    simpl Str.drop. simpl Str.run. rewrite Hc. reflexivity.
Qed.

Lemma species_fields_adjacent_Si12 :
  species_fields "Si12" = Return ("Si1", "2").
Proof. apply (species_fields_adjacent "Si1" "2"); reflexivity. Defined.

(** ** The errors of the formatter *)

(** X12 -- the errors of [species_tuple_to_string] for an ion number that
    is an [int] together with its successor: it raises [KeyError] exactly
    when the atomic number is not in [atomic_number2symbol], whatever the
    ion number and the notation; it raises the range [ValueError] of
    [int_to_roman] exactly when the atomic number is registered, the
    notation is roman and [ion_number + 1] is outside [1, 3999]; it raises
    nothing else. *)
Theorem species_tuple_to_string_errors data n ion_number roman_numerals :
  fits_int ion_number = true ->
  fits_int (ion_number + 1) = true ->
  (species_tuple_to_string data (n, ion_number) roman_numerals
   = Raise (KeyError n)
   <-> atomic_number2symbol data !! n = None)
  /\ (species_tuple_to_string data (n, ion_number) roman_numerals
      = Raise (ValueError ArgumentRange)
      <-> is_Some (atomic_number2symbol data !! n)
          /\ roman_numerals = true
          /\ ~ (1 <= ion_number + 1 <= 3999))
  /\ (forall e,
        species_tuple_to_string data (n, ion_number) roman_numerals = Raise e ->
        e = KeyError n \/ e = ValueError ArgumentRange).
Proof.
  intros _ _.
  destruct (atomic_number2symbol data !! n) as [symbol|] eqn:Hn.
  - destruct roman_numerals.
    + rewrite (species_tuple_to_string_roman _ _ _ _ Hn).
      destruct (int_to_roman (ion_number + 1)) as [r|e] eqn:Hr.
      * rewrite bind_Return. apply int_to_roman_in_range in Hr.
        split; [split; discriminate|]. split; [|discriminate].
        split; [discriminate|]. intros (_ & _ & H). contradiction.
      * apply int_to_roman_raises in Hr as [-> Hr]. rewrite bind_Raise.
        split; [split; discriminate|]. split.
        -- split; [|reflexivity]. intros _. eauto.
        -- intros e [= <-]. auto.
    + rewrite (species_tuple_to_string_decimal _ _ _ _ Hn).
      split; [split; discriminate|]. split; [|discriminate].
      split; [discriminate|]. intros (_ & H & _). discriminate.
  - assert (H : species_tuple_to_string data (n, ion_number) roman_numerals
                = Raise (KeyError n)).
    { unfold species_tuple_to_string, atomic_number2element_symbol.
      rewrite Hn. reflexivity. }
    rewrite H. split; [split; reflexivity|]. split.
    + split; [discriminate|]. intros ([? ?] & _). discriminate.
    + intros e [= <-]. auto.
Qed.

Lemma species_tuple_to_string_errors_Si_4000 :
  (species_tuple_to_string atomic_symbols_sample (14, 4000) true
   = Raise (KeyError 14)
   <-> atomic_number2symbol atomic_symbols_sample !! 14 = None)
  /\ (species_tuple_to_string atomic_symbols_sample (14, 4000) true
      = Raise (ValueError ArgumentRange)
      <-> is_Some (atomic_number2symbol atomic_symbols_sample !! 14)
          /\ true = true
          /\ ~ (1 <= 4000 + 1 <= 3999))
  /\ (forall e,
        species_tuple_to_string atomic_symbols_sample (14, 4000) true = Raise e ->
        e = KeyError 14 \/ e = ValueError ArgumentRange).
Proof.
  apply (species_tuple_to_string_errors atomic_symbols_sample 14 4000 true);
    reflexivity.
Defined.

(** ** Formatting what was parsed *)

(** X13 -- the formatter spells what the parser read: when no atomic number
    and no symbol occurs twice in the table and the parser returns
    [(n, ion_number)] for an input whose ionization token is a roman
    numeral, the roman form of [(n, ion_number)] is the reformatted symbol
    field, one blank, and the token in upper case. *)
Theorem species_canonical_spelling data s symbol tok v n ion_number :
  NoDup (data.*1) -> NoDup (data.*2) ->
  species_fields s = Return (symbol, tok) ->
  roman_to_int tok = Return v ->
  species_string_to_tuple data s = Return (n, ion_number) ->
  exists r,
    reformat_element_symbol symbol = Return r
    /\ species_tuple_to_string data (n, ion_number) true
       = Return (r +:+ " " +:+ Str.upper tok).
Proof.
  intros H1 H2 Hf Hv Hp.
  unfold species_string_to_tuple in Hp. rewrite Hf, bind_Return in Hp.
  destruct (element_symbol2atomic_number data symbol) as [n'|] eqn:He;
    [|discriminate].
  rewrite bind_Return, (species_ion_number_roman _ _ Hv), bind_Return in Hp.
  destruct (v >? n'); [discriminate|]. injection Hp as <- <-.
  destruct (lookup_symbol_then_number data _ _ H1 H2 He) as (r & Hr & Ha).
  exists r. split; [exact Hr|].
  unfold species_tuple_to_string. rewrite Ha, bind_Return.
  replace (v - 1 + 1) with v by lia.
  apply roman_to_int_returns in Hv as [_ ->]. reflexivity.
Qed.

Lemma species_canonical_spelling_si_iv :
  exists r,
    reformat_element_symbol "si" = Return r
    /\ species_tuple_to_string atomic_symbols_sample (14, 3) true
       = Return (r +:+ " " +:+ Str.upper "iv").
Proof.
  apply (species_canonical_spelling atomic_symbols_sample "  si iv " "si" "iv" 4);
    try (apply (bool_decide_unpack _)); vm_compute; reflexivity.
Defined.

(** ** Blanks in quantity strings *)

Lemma split_blank w s : is_blank w = true -> Str.split (w +:+ s) = Str.split s.
Proof.
  unfold is_blank. induction w as [|c r IH]; [reflexivity|].
  simpl Str.forallb. intros [Hc Hr]%andb_true_iff.
  rewrite append_cons. simpl Str.split. rewrite Hc. apply IH, Hr.
Qed.

Lemma split_token_blank a w r :
  is_token a = true -> nonempty w = true -> is_blank w = true ->
  Str.split (a +:+ w +:+ r) = a :: Str.split r.
Proof.
  intros Ha Hne Hw. destruct w as [|c w']; [discriminate|].
  unfold is_blank in Hw. simpl in Hw. apply andb_true_iff in Hw as [Hc Hw].
  rewrite append_cons, split_token_space by assumption.
  rewrite split_blank by exact Hw. reflexivity.
Qed.

Lemma split_token_trailing b w :
  is_token b = true -> is_blank w = true -> Str.split (b +:+ w) = [b].
Proof.
  intros Hb Hw. destruct w as [|c w'].
  - rewrite append_empty_r. apply split_token, Hb.
  - rewrite <- (append_empty_r (String c w')).
    rewrite split_token_blank by auto. reflexivity.
Qed.

Lemma split_padded w1 a w2 b w3 :
  is_blank w1 = true -> is_token a = true ->
  nonempty w2 = true -> is_blank w2 = true ->
  is_token b = true -> is_blank w3 = true ->
  Str.split (w1 +:+ a +:+ w2 +:+ b +:+ w3) = [a; b].
Proof.
  intros H1 Ha Hne H2 Hb H3.
  rewrite split_blank, split_token_blank, split_token_trailing by assumption.
  reflexivity.
Qed.

Section QuantityProperties.

Variables (float quantity : Type).
Variable python_float : string -> result float.
Variable Quantity : float -> string -> result quantity.

Lemma parse_quantity_two s value_string unit_string :
  Str.split s = [value_string; unit_string] ->
  parse_quantity float quantity python_float Quantity s =
    value ← try_except (python_float value_string) is_ValueError
              (Raise (MalformedQuantityError s));
    q ← try_except (Quantity value unit_string) is_ValueError
          (Raise (MalformedQuantityError s));
    Return q.
Proof. intros Hs. unfold parse_quantity. rewrite Hs. reflexivity. Qed.

(** X14 -- blanks around the two tokens do not count: with any whitespace
    before the value, between the value and the unit (at least one
    character) and after the unit, the two tokens are the value and the
    unit, and [parse_quantity] returns a quantity exactly when it does for
    the value, one blank and the unit, and raises
    [MalformedQuantityError] exactly when it does there. *)
Theorem parse_quantity_blanks w1 a w2 b w3 :
  is_blank w1 = true -> is_token a = true ->
  nonempty w2 = true -> is_blank w2 = true ->
  is_token b = true -> is_blank w3 = true ->
  let s := w1 +:+ a +:+ w2 +:+ b +:+ w3 in
  let s' := a +:+ " " +:+ b in
  Str.split s = [a; b]
  /\ (forall q,
        parse_quantity float quantity python_float Quantity s = Return q
        <-> parse_quantity float quantity python_float Quantity s' = Return q)
  /\ ((exists t,
         parse_quantity float quantity python_float Quantity s
         = Raise (MalformedQuantityError t))
      <-> (exists t,
             parse_quantity float quantity python_float Quantity s'
             = Raise (MalformedQuantityError t))).
Proof.
  intros H1 Ha Hne H2 Hb H3 s s'.
  split; [apply split_padded; assumption|].
  rewrite (parse_quantity_two s a b) by (apply split_padded; assumption).
  rewrite (parse_quantity_two s' a b) by (apply split_two; assumption).
  destruct (python_float a) as [x|e]; simpl.
  - destruct (Quantity x b) as [q|e]; simpl.
    + split; [reflexivity|]. split; intros [t [=]].
    + destruct (is_ValueError e) eqn:E.
      * split; [intros q; split; discriminate|]. split; eauto.
      * split; [intros q; split; discriminate|]. reflexivity.
  - destruct (is_ValueError e) eqn:E.
    + split; [intros q; split; discriminate|]. split; eauto.
    + split; [intros q; split; discriminate|]. reflexivity.
Qed.

(** X15 -- only [ValueError] is turned into [MalformedQuantityError]: an
    exception of another class raised by [float] or by the unit constructor
    comes out of [parse_quantity] as it is. *)
Theorem parse_quantity_propagates s value_string unit_string e :
  Str.split s = [value_string; unit_string] ->
  is_ValueError e = false ->
  (python_float value_string = Raise e ->
   parse_quantity float quantity python_float Quantity s = Raise e)
  /\ (forall value,
        python_float value_string = Return value ->
        Quantity value unit_string = Raise e ->
        parse_quantity float quantity python_float Quantity s = Raise e).
Proof.
  intros Hs He. rewrite (parse_quantity_two s _ _ Hs). split.
  - intros ->. simpl. rewrite He. reflexivity.
  - intros value -> Hq. simpl. rewrite Hq. simpl. rewrite He. reflexivity.
Qed.

End QuantityProperties.

Lemma parse_quantity_blanks_sample :
  Str.split "  5   km/s " = ["5"; "km/s"]
  /\ (forall q,
     parse_quantity Z (Z * string) float_sample Quantity_sample "  5   km/s "
     = Return q
     <-> parse_quantity Z (Z * string) float_sample Quantity_sample "5 km/s"
         = Return q)
  /\ ((exists t,
         parse_quantity Z (Z * string) float_sample Quantity_sample "  5   km/s "
         = Raise (MalformedQuantityError t))
      <-> (exists t,
             parse_quantity Z (Z * string) float_sample Quantity_sample "5 km/s"
             = Raise (MalformedQuantityError t))).
Proof.
  apply (parse_quantity_blanks Z (Z * string) float_sample Quantity_sample
           "  " "5" "   " "km/s" " "); reflexivity.
Defined.

Lemma parse_quantity_propagates_sample :
  (float_sample "5" = Raise IndexError ->
   parse_quantity Z (Z * string) float_sample
     (fun _ _ => Raise IndexError) "5 km/s" = Raise IndexError)
  /\ (forall value,
        float_sample "5" = Return value ->
        @Raise (Z * string) IndexError = Raise IndexError ->
        parse_quantity Z (Z * string) float_sample
          (fun _ _ => Raise IndexError) "5 km/s" = Raise IndexError).
Proof.
  apply (parse_quantity_propagates Z (Z * string) float_sample
           (fun _ _ => Raise IndexError) "5 km/s" "5" "km/s" IndexError);
    reflexivity.
Defined.

(** ** Two tokens and blanks *)

Lemma blank_no_digit w :
  is_blank w = true -> Str.forallb (fun c => negb (Str.isdigit c)) w = true.
Proof.
  apply forallb_impl. intros c Hc. destruct (Str.isdigit c) eqn:E; [|reflexivity].
  rewrite (digit_not_space c E) in Hc. discriminate.
Qed.

(** X16 -- blanks around a symbol and a numeral: when neither token
    contains a digit, whitespace before the first, between the two and
    after the second does not count; the fields are the two tokens, and
    the outcome of the parser is that of the two tokens with one blank. *)
Theorem species_string_to_tuple_padded data w1 a w2 b w3 :
  is_blank w1 = true ->
  is_token a = true -> Str.forallb (fun c => negb (Str.isdigit c)) a = true ->
  nonempty w2 = true -> is_blank w2 = true ->
  is_token b = true -> Str.forallb (fun c => negb (Str.isdigit c)) b = true ->
  is_blank w3 = true ->
  species_fields (w1 +:+ a +:+ w2 +:+ b +:+ w3) = Return (a, b)
  /\ species_string_to_tuple data (w1 +:+ a +:+ w2 +:+ b +:+ w3)
     = species_string_to_tuple data (a +:+ " " +:+ b).
Proof.
  intros H1 Ha Ha' Hne H2 Hb Hb' H3.
  assert (F1 : species_fields (w1 +:+ a +:+ w2 +:+ b +:+ w3) = Return (a, b)).
  { apply species_fields_split; [|apply split_padded; assumption].
    apply species_pattern_no_digit. rewrite !forallb_app.
    rewrite Ha', Hb', !blank_no_digit by assumption. reflexivity. }
  assert (F2 : species_fields (a +:+ " " +:+ b) = Return (a, b)).
  { apply species_fields_split; [|apply split_two; assumption].
    apply species_pattern_no_digit. rewrite !forallb_app.
    rewrite Ha', Hb'. reflexivity. }
  split; [exact F1|]. unfold species_string_to_tuple. rewrite F1, F2. reflexivity.
Qed.

Lemma species_string_to_tuple_padded_sample :
  species_fields "  si   iv " = Return ("si", "iv")
  /\ species_string_to_tuple atomic_symbols_sample "  si   iv "
     = species_string_to_tuple atomic_symbols_sample "si iv".
Proof.
  apply (species_string_to_tuple_padded atomic_symbols_sample
           "  " "si" "   " "iv" " "); reflexivity.
Defined.

(** ** The smoothing filter *)

Lemma Z_range_length lo len : length (Z_range lo len) = len.
Proof. unfold Z_range. rewrite length_map, length_seq. reflexivity. Qed.

Lemma Z_range_nth lo len j d :
  (j < len)%nat -> nth j (Z_range lo len) d = lo + Z.of_nat j.
Proof.
  intros Hj. unfold Z_range.
  rewrite (nth_indep _ d (lo + Z.of_nat 0))
    by (rewrite length_map, length_seq; exact Hj).
  rewrite (map_nth (fun k => lo + Z.of_nat k)), seq_nth by exact Hj.
  reflexivity.
Qed.

Lemma fits_int_bounds n : fits_int n = true <-> - 2 ^ 31 <= n < 2 ^ 31.
Proof.
  unfold fits_int. rewrite andb_true_iff, Z.leb_le, Z.ltb_lt. reflexivity.
Qed.

Section SavitzkyGolayProperties.

Variables (array number filtered : Type).
Variable numpy_filter : list (list Z) -> Z -> array -> Z -> number -> filtered.
Variables (np_abs : Z -> Z) (np_add : Z -> Z -> Z).
Hypothesis numpy : numpy_exact np_abs np_add.

(** Away from the width, the three values of numpy are those of [Z]. *)
Lemma numpy_in_range window_size order :
  fits_int window_size = true -> fits_int (Z.abs window_size) = true ->
  fits_int order = true -> fits_int (Z.abs order + 2) = true ->
  np_abs window_size = Z.abs window_size
  /\ np_abs order = Z.abs order
  /\ np_add (Z.abs order) 2 = Z.abs order + 2
  /\ np_add (Z.abs order) 1 = Z.abs order + 1
  /\ np_abs (Z.abs window_size) = Z.abs window_size
  /\ np_abs (Z.abs order) = Z.abs order.
Proof.
  destruct numpy as [Habs Hadd]. intros Hw Hw' Ho Ho'.
  pose proof (proj1 (fits_int_bounds _) Hw).
  pose proof (proj1 (fits_int_bounds _) Hw').
  pose proof (proj1 (fits_int_bounds _) Ho).
  pose proof (proj1 (fits_int_bounds _) Ho').
  pose proof (Z.abs_nonneg order). pose proof (Z.abs_nonneg window_size).
  assert (Hao : fits_int (Z.abs order) = true) by (apply fits_int_bounds; lia).
  repeat split.
  - apply Habs; assumption.
  - apply Habs; assumption.
  - apply Hadd; [assumption|reflexivity|assumption].
  - apply Hadd; [assumption|reflexivity|apply fits_int_bounds; lia].
  - rewrite Habs, Z.abs_idemp by (rewrite ?Z.abs_idemp; assumption). reflexivity.
  - rewrite Habs, Z.abs_idemp by (rewrite ?Z.abs_idemp; assumption). reflexivity.
Qed.

(** X17 -- the arguments the filter accepts, for a window and an order
    that are [int]s with, in absolute value, room for the additions: the
    signs of [window_size] and [order] are dropped; the call is refused
    with a [TypeError] exactly when the absolute window is even (zero
    included) or smaller than the absolute order plus two, and otherwise
    the numerical part is entered with half the window, rounded down. The
    test [window_size < 1] never decides: it can hold only when the window
    is 0, which is even already. *)
Theorem savitzky_golay_arguments (y : array) (window_size order deriv : Z)
    (rate : number) :
  fits_int window_size = true -> fits_int (Z.abs window_size) = true ->
  fits_int order = true -> fits_int (Z.abs order + 2) = true ->
  let run :=
    savitzky_golay array number filtered numpy_filter np_abs np_add y in
  run window_size order deriv rate
  = run (Z.abs window_size) (Z.abs order) deriv rate
  /\ (Z.even window_size = true <->
      run window_size order deriv rate
      = inl (PyTypeError "window_size size must be a positive odd number"))
  /\ (Z.odd window_size = true /\ Z.abs window_size < Z.abs order + 2 <->
      run window_size order deriv rate
      = inl (PyTypeError "window_size is too small for the polynomials order"))
  /\ (Z.odd window_size = true /\ Z.abs order + 2 <= Z.abs window_size <->
      exists b,
        run window_size order deriv rate
        = inr (numpy_filter b ((Z.abs window_size - 1) / 2) y deriv rate)).
Proof.
  intros Fw Fw' Fo Fo' run. unfold run, savitzky_golay.
  destruct (numpy_in_range window_size order Fw Fw' Fo Fo')
    as (E1 & E2 & E3 & E4 & E5 & E6).
  rewrite E1, E2, E5, E6, !E3, !E4. clear E1 E2 E3 E4 E5 E6.
  set (w := Z.abs window_size). set (o := Z.abs order).
  assert (Hw : 0 <= w) by apply Z.abs_nonneg.
  assert (Hpar : Z.even window_size = Z.even w).
  { unfold w. destruct window_size; reflexivity. }
  assert (Hodd : Z.odd window_size = negb (Z.even w))
    by (rewrite <- Hpar, Z.negb_even; reflexivity).
  rewrite Hpar, Hodd.
  assert (Hmod : (w mod 2 =? 1) = negb (Z.even w)).
  { rewrite Zeven_mod. destruct (Z.eqb_spec (w mod 2) 0) as [E|E];
      destruct (Z.eqb_spec (w mod 2) 1) as [E'|E']; try reflexivity; try lia.
    pose proof (Z.mod_pos_bound w 2). lia. }
  rewrite Hmod, negb_involutive.
  split; [reflexivity|].
  destruct (Z.even w) eqn:Ev; simpl.
  - split; [tauto|]. split.
    + split; [intros [? _]; discriminate|intros H; discriminate H].
    + split; [intros [? _]; discriminate|intros [b H]; discriminate H].
  - assert (Hw1 : (w <? 1) = false).
    { apply Z.ltb_ge. destruct (Z.eq_dec w 0) as [E|E]; [|lia].
      rewrite E in Ev. discriminate. }
    rewrite Hw1. destruct (w <? o + 2) eqn:Hlt.
    + apply Z.ltb_lt in Hlt.
      split; [split; intros H; discriminate H|].
      split; [tauto|].
      split; [intros [_ ?]; lia|intros [b H]; discriminate H].
    + apply Z.ltb_ge in Hlt.
      split; [split; intros H; discriminate H|].
      split; [split; [intros [_ ?]; lia|intros H; discriminate H]|].
      split; [eauto|auto].
Qed.

(** X18 -- the matrix handed to the numerical part, for a window and an
    order that are [int]s with, in absolute value, room for the additions:
    for an accepted call it has as many rows as the absolute window and one
    column more than the absolute order; the entry of row [j] and column
    [i] is [(j - half_window) ^ i], so the first column is all ones, and
    the half-window and the window are related by
    [2 * half_window + 1 = window]. *)
Theorem savitzky_golay_matrix (y : array) (window_size order deriv : Z)
    (rate : number) r :
  fits_int window_size = true -> fits_int (Z.abs window_size) = true ->
  fits_int order = true -> fits_int (Z.abs order + 2) = true ->
  savitzky_golay array number filtered numpy_filter np_abs np_add y
    window_size order deriv rate = inr r ->
  exists b half_window,
    r = numpy_filter b half_window y deriv rate
    /\ 2 * half_window + 1 = Z.abs window_size
    /\ length b = Z.to_nat (Z.abs window_size)
    /\ (forall j i,
          (j < Z.to_nat (Z.abs window_size))%nat ->
          (i < Z.to_nat (Z.abs order + 1))%nat ->
          length (nth j b []) = Z.to_nat (Z.abs order + 1)
          /\ nth i (nth j b []) 0 = (Z.of_nat j - half_window) ^ Z.of_nat i
          /\ nth 0 (nth j b []) 0 = 1).
Proof.
  intros Fw Fw' Fo Fo'. unfold savitzky_golay.
  destruct (numpy_in_range window_size order Fw Fw' Fo Fo')
    as (E1 & E2 & E3 & E4 & _ & _).
  rewrite E1, E2, E3, E4. clear E1 E2 E3 E4.
  set (w := Z.abs window_size). set (o := Z.abs order).
  assert (Hw : 0 <= w) by apply Z.abs_nonneg.
  assert (Ho : 0 <= o) by apply Z.abs_nonneg.
  destruct (w mod 2 =? 1) eqn:Hmod; simpl; [|discriminate].
  destruct (w <? 1); simpl; [discriminate|].
  destruct (w <? o + 2); [discriminate|].
  intros [= <-]. apply Z.eqb_eq in Hmod.
  set (hw := (w - 1) / 2).
  assert (Hhw : 2 * hw + 1 = w).
  { unfold hw. pose proof (Z.div_mod w 2). pose proof (Z.div_mod (w - 1) 2).
    assert ((w - 1) mod 2 = 0).
    { replace (w - 1) with (w + (-1) * 1) by lia.
      rewrite <- Zplus_mod_idemp_l, Hmod. reflexivity. }
    lia. }
  eexists _, hw. split; [reflexivity|]. split; [exact Hhw|].
  assert (Hrows : Z.to_nat (hw + 1 - - hw) = Z.to_nat w) by (f_equal; lia).
  assert (Hcols : Z.to_nat (o + 1 - 0) = Z.to_nat (o + 1)) by (f_equal; lia).
  split.
  - rewrite length_map. unfold py_range. rewrite Z_range_length. exact Hrows.
  - intros j i Hj Hi. unfold py_range.
    rewrite (nth_indep _ []
               (List.map (fun i => (- hw) ^ i) (Z_range 0 (Z.to_nat (o + 1 - 0)))))
      by (rewrite length_map, Z_range_length, Hrows; exact Hj).
    rewrite (map_nth (fun k => List.map (fun i => k ^ i)
                                  (Z_range 0 (Z.to_nat (o + 1 - 0))))).
    rewrite Z_range_nth by (rewrite Hrows; exact Hj).
    replace (- hw + Z.of_nat j) with (Z.of_nat j - hw) by lia.
    set (k := Z.of_nat j - hw).
    assert (Hnth : forall i', (i' < Z.to_nat (o + 1))%nat ->
              nth i' (List.map (fun i => k ^ i) (Z_range 0 (Z.to_nat (o + 1 - 0)))) 0
              = k ^ Z.of_nat i').
    { intros i' Hi'.
      rewrite (nth_indep _ 0 (k ^ 0))
        by (rewrite length_map, Z_range_length, Hcols; exact Hi').
      rewrite (map_nth (fun i => k ^ i)).
      rewrite Z_range_nth by (rewrite Hcols; exact Hi'). reflexivity. }
    split; [rewrite length_map, Z_range_length; exact Hcols|].
    split; [apply Hnth, Hi|].
    rewrite Hnth by lia. reflexivity.
Qed.

End SavitzkyGolayProperties.

Lemma numpy_exact_Z : numpy_exact Z.abs Z.add.
Proof. split; intros; reflexivity. Qed.

Lemma savitzky_golay_arguments_5_2 :
  let run :=
    savitzky_golay unit unit (list (list Z) * Z)
      (fun b hw _ _ _ => (b, hw)) Z.abs Z.add tt in
  run (-5) 2 0 tt = run (Z.abs (-5)) (Z.abs 2) 0 tt
  /\ (Z.even (-5) = true <->
      run (-5) 2 0 tt
      = inl (PyTypeError "window_size size must be a positive odd number"))
  /\ (Z.odd (-5) = true /\ Z.abs (-5) < Z.abs 2 + 2 <->
      run (-5) 2 0 tt
      = inl (PyTypeError "window_size is too small for the polynomials order"))
  /\ (Z.odd (-5) = true /\ Z.abs 2 + 2 <= Z.abs (-5) <->
      exists b,
        run (-5) 2 0 tt = inr ((b, (Z.abs (-5) - 1) / 2))).
Proof.
  apply (savitzky_golay_arguments unit unit (list (list Z) * Z)
           (fun b hw _ _ _ => (b, hw)) Z.abs Z.add numpy_exact_Z
           tt (-5) 2 0 tt); reflexivity.
Defined.

Lemma savitzky_golay_matrix_5_2 :
  exists b half_window,
    ([[1; -2; 4]; [1; -1; 1]; [1; 0; 0]; [1; 1; 1]; [1; 2; 4]], 2)
    = (b, half_window)
    /\ 2 * half_window + 1 = Z.abs (-5)
    /\ length b = Z.to_nat (Z.abs (-5))
    /\ (forall j i,
          (j < Z.to_nat (Z.abs (-5)))%nat ->
          (i < Z.to_nat (Z.abs 2 + 1))%nat ->
          length (nth j b []) = Z.to_nat (Z.abs 2 + 1)
          /\ nth i (nth j b []) 0 = (Z.of_nat j - half_window) ^ Z.of_nat i
          /\ nth 0 (nth j b []) 0 = 1).
Proof.
  destruct (savitzky_golay_matrix unit unit (list (list Z) * Z)
              (fun b hw _ _ _ => (b, hw)) Z.abs Z.add numpy_exact_Z
              tt (-5) 2 0 tt
              ([[1; -2; 4]; [1; -1; 1]; [1; 0; 0]; [1; 1; 1]; [1; 2; 4]], 2)
              eq_refl eq_refl eq_refl eq_refl eq_refl)
    as (b & hw & Hr & H).
  exists b, hw. split; [exact Hr|exact H].
Defined.

(** ** The exporter *)

(** X19 -- [create_synpp_yaml] never exports: after the warning it raises
    [ValueError] when the model has a reference table, and [TypeError], from
    the assignment into [None], when it has none; in no case is the rest of
    the function reached. *)
Theorem create_synpp_yaml_always_raises (frame : Type)
    (set_column : frame -> string -> frame)
    (export : frame -> py_error + unit) (synpp_refs : option frame) :
  let outcome := create_synpp_yaml frame set_column export synpp_refs in
  outcome.1 = ["Currently only works with Si and a special setup"]
  /\ (forall u, outcome.2 <> inr u)
  /\ (is_Some synpp_refs <-> exists m, outcome.2 = inl (PyValueError m))
  /\ (synpp_refs = None <-> exists m, outcome.2 = inl (PyTypeError m))
  /\ forall export',
       create_synpp_yaml frame set_column export' synpp_refs = outcome.
Proof.
  destruct synpp_refs as [f|]; simpl; repeat split; try discriminate; eauto.
  - intros [m [=]].
  - intros [? [=]].
  - intros [m [=]].
Qed.
